(** * The payment tracker's ledger service (server.js), embedded in Rocq

    The development follows the Express handlers of [server.js]: payment
    ingestion, payment resolution (pay / lose), the three game endpoints,
    withdrawal and the Discord linking flow.  Each handler is a function
    from the request, the environment it observes (clock, identifiers,
    random source, whether a file write goes through) and the server state
    to a response and the next state.

    JavaScript numbers are modelled on the whole-number doubles (coins are
    whole: the bot reports [parseInt(amount)]), together with [NaN] and the
    two infinities.  On that domain addition, subtraction, multiplication
    and the comparisons are exact, so [Z] carries the finite values. *)

From Stdlib Require Import ZArith Lia Bool String Ascii List DecimalString
  OrderedTypeEx.
From stdpp Require Import base option list gmap strings sorting.
Import ListNotations.

Local Open Scope string_scope.
Local Open Scope Z_scope.

(** ** JavaScript values *)

Module JS.

(** The number type: [Fin z] is the double whose value is the integer [z]. *)
Inductive num : Type :=
| NaN
| NInf
| PInf
| Fin (z : Z).

Definition neg (a : num) : num :=
  match a with
  | NaN => NaN
  | NInf => PInf
  | PInf => NInf
  | Fin z => Fin (- z)
  end.

(** [a + b] *)
Definition add (a b : num) : num :=
  match a, b with
  | NaN, _ | _, NaN => NaN
  | PInf, NInf | NInf, PInf => NaN
  | PInf, _ | _, PInf => PInf
  | NInf, _ | _, NInf => NInf
  | Fin x, Fin y => Fin (x + y)
  end.

(** [a - b] *)
Definition sub (a b : num) : num := add a (neg b).

(** [a * b] *)
Definition mul (a b : num) : num :=
  match a, b with
  | NaN, _ | _, NaN => NaN
  | Fin x, Fin y => Fin (x * y)
  | Fin x, PInf | PInf, Fin x =>
      if x =? 0 then NaN else if 0 <? x then PInf else NInf
  | Fin x, NInf | NInf, Fin x =>
      if x =? 0 then NaN else if 0 <? x then NInf else PInf
  | PInf, PInf | NInf, NInf => PInf
  | PInf, NInf | NInf, PInf => NInf
  end.

(** The order of the relational operators: [None] when an operand is
    [NaN], in which case every one of [<], [<=], [>], [===] is false. *)
Definition cmp (a b : num) : option comparison :=
  match a, b with
  | NaN, _ | _, NaN => None
  | NInf, NInf | PInf, PInf => Some Eq
  | NInf, _ | _, PInf => Some Lt
  | _, NInf | PInf, _ => Some Gt
  | Fin x, Fin y => Some (x ?= y)
  end.

(** [a < b] *)
Definition ltb (a b : num) : bool :=
  match cmp a b with Some Lt => true | _ => false end.

(** [a <= b] *)
Definition leb (a b : num) : bool :=
  match cmp a b with Some Lt | Some Eq => true | _ => false end.

(** [a > b] *)
Definition gtb (a b : num) : bool := ltb b a.

(** [a === b] on numbers *)
Definition eqb (a b : num) : bool :=
  match cmp a b with Some Eq => true | _ => false end.

(** A field of a parsed JSON body, or what destructuring gives for a
    field that is absent ([VUndefined]).  The scalar values are covered;
    nested arrays and objects are not. *)
Inductive jsval : Type :=
| VUndefined
| VNull
| VBool (b : bool)
| VNum (n : num)
| VStr (s : string).

(** ToBoolean, as used by [!x] and [if (x)]. *)
Definition truthy (v : jsval) : bool :=
  match v with
  | VUndefined | VNull => false
  | VBool b => b
  | VNum NaN => false
  | VNum (Fin z) => negb (z =? 0)
  | VNum _ => true
  | VStr s => negb (String.eqb s "")
  end.

(** Number::toString for the numbers of the model. *)
Definition number_to_string (n : num) : string :=
  match n with
  | NaN => "NaN"
  | PInf => "Infinity"
  | NInf => "-Infinity"
  | Fin z => NilZero.string_of_int (Z.to_int z)
  end.

(** ToString, as applied by template literals and by the parsers. *)
Definition to_string (v : jsval) : string :=
  match v with
  | VUndefined => "undefined"
  | VNull => "null"
  | VBool true => "true"
  | VBool false => "false"
  | VNum n => number_to_string n
  | VStr s => s
  end.

(** *** Characters *)

Definition is_space (c : ascii) : bool :=
  let n := nat_of_ascii c in
  ((9 <=? n) && (n <=? 13) || (n =? 32))%nat.

Definition digit_val (c : ascii) : option Z :=
  let n := Z.of_nat (nat_of_ascii c) in
  if (48 <=? n) && (n <=? 57) then Some (n - 48) else None.

Definition hex_val (c : ascii) : option Z :=
  let n := Z.of_nat (nat_of_ascii c) in
  if (48 <=? n) && (n <=? 57) then Some (n - 48)
  else if (97 <=? n) && (n <=? 102) then Some (n - 87)
  else if (65 <=? n) && (n <=? 70) then Some (n - 55)
  else None.

Definition lower (c : ascii) : ascii :=
  let n := nat_of_ascii c in
  if ((65 <=? n) && (n <=? 90))%nat then ascii_of_nat (n + 32) else c.

Fixpoint skip_space (l : list ascii) : list ascii :=
  match l with
  | c :: l' => if is_space c then skip_space l' else l
  | [] => []
  end.

Definition upper (c : ascii) : ascii :=
  let n := nat_of_ascii c in
  if ((97 <=? n) && (n <=? 122))%nat then ascii_of_nat (n - 32) else c.

(** [s.toLowerCase()] on ASCII text. *)
Definition toLowerCase (s : string) : string :=
  string_of_list_ascii (List.map lower (list_ascii_of_string s)).

(** [s.toUpperCase()] on ASCII text. *)
Definition toUpperCase (s : string) : string :=
  string_of_list_ascii (List.map upper (list_ascii_of_string s)).

(** [s.trim()], the white space being the ASCII one. *)
Definition trim (s : string) : string :=
  string_of_list_ascii
    (rev (skip_space (rev (skip_space (list_ascii_of_string s))))).

(** *** parseFloat and parseInt *)

(** The longest run of digits (for [val], in base [base]) at the head of
    [l]: the value read so far, the number of digits, and the rest. *)
Fixpoint read_digits (val : ascii -> option Z) (base : Z)
    (l : list ascii) (acc : Z) (n : nat) : Z * nat * list ascii :=
  match l with
  | c :: l' =>
      match val c with
      | Some d => read_digits val base l' (base * acc + d) (S n)
      | None => (acc, n, l)
      end
  | [] => (acc, n, [])
  end.

Definition read_sign (l : list ascii) : bool * list ascii :=
  match l with
  | "-"%char :: l' => (true, l')
  | "+"%char :: l' => (false, l')
  | _ => (false, l)
  end.

Definition signed (negative : bool) (z : Z) : Z :=
  if negative then - z else z.

(** The exponent part [e[+-]digits]; [0] when there is none. *)
Definition read_exponent (l : list ascii) : Z :=
  match l with
  | c :: l' =>
      if (Ascii.eqb c "e" || Ascii.eqb c "E")%bool then
        let '(sg, l'') := read_sign l' in
        let '(e, n, _) := read_digits digit_val 10 l'' 0 0%nat in
        if (n =? 0)%nat then 0 else signed sg e
      else 0
  | [] => 0
  end.

Definition starts_with (p : string) (l : list ascii) : bool :=
  String.prefix p (string_of_list_ascii l).

(** [parseFloat] on a string: leading white space, a sign, then
    [Infinity] or the longest decimal literal; [NaN] when there is none.
    The literal [m * 10^e] is exact when it denotes a whole number, the
    only finite values of the model; a fractional value is cut to its
    integer part. *)
Definition parseFloat_string (s : string) : num :=
  let '(sg, l) := read_sign (skip_space (list_ascii_of_string s)) in
  if starts_with "Infinity" l then (if sg then NInf else PInf)
  else
    let '(ip, n1, l1) := read_digits digit_val 10 l 0 0%nat in
    let '(m, n2, l2) :=
      match l1 with
      | "."%char :: l1' => read_digits digit_val 10 l1' ip 0%nat
      | _ => (ip, 0%nat, l1)
      end in
    if ((n1 + n2)%nat =? 0)%nat then NaN
    else
      let e := read_exponent l2 - Z.of_nat n2 in
      Fin (signed sg (if 0 <=? e then m * 10 ^ e else m / 10 ^ (- e))).

(** [parseInt] on a string, no radix given: white space, a sign, an
    optional [0x] prefix, then the longest run of digits. *)
Definition parseInt_string (s : string) : num :=
  let '(sg, l) := read_sign (skip_space (list_ascii_of_string s)) in
  let '(v, n, _) :=
    if (starts_with "0x" l || starts_with "0X" l)%bool
    then read_digits hex_val 16 (drop 2 l) 0 0%nat
    else read_digits digit_val 10 l 0 0%nat in
  if (n =? 0)%nat then NaN else Fin (signed sg v).

(** Both built-ins convert their argument with ToString first. *)
Definition parseFloat (v : jsval) : num := parseFloat_string (to_string v).
Definition parseInt (v : jsval) : num := parseInt_string (to_string v).

End JS.

Import JS.

(** ** Data model *)

(** An entry of [user.gameHistory]. *)
Inductive game_event : Type :=
| EvBlackjack (wager : num) (won playerValue dealerValue : jsval)
    (winnings : num) (timestamp : string)
| EvPlinko (wager : num) (won : bool) (multiplier : jsval) (payout : num)
    (timestamp : string)
| EvNumber (picked drawn wager : num) (won : bool) (winnings : num)
    (timestamp : string)
| EvAdminSetBalance (prev newBalance : num) (timestamp : string)
| EvAdminAdjustBalance (delta prev newBalance : num) (timestamp : string).

(** An element of [users]; an absent or [null] [discordId] is [None]. *)
Module User.
Record t : Type := Make {
  id : string;
  username : string;
  discordId : option string;
  discordTag : option string;
  balance : num;
  totalWagered : num;
  totalWon : num;
  totalLost : num;
  createdAt : string;
  gameHistory : list game_event
}.

Definition set_balance (b : num) (u : t) : t :=
  Make (id u) (username u) (discordId u) (discordTag u) b (totalWagered u)
    (totalWon u) (totalLost u) (createdAt u) (gameHistory u).
Definition set_totalWagered (x : num) (u : t) : t :=
  Make (id u) (username u) (discordId u) (discordTag u) (balance u) x
    (totalWon u) (totalLost u) (createdAt u) (gameHistory u).
Definition set_totalWon (x : num) (u : t) : t :=
  Make (id u) (username u) (discordId u) (discordTag u) (balance u)
    (totalWagered u) x (totalLost u) (createdAt u) (gameHistory u).
Definition set_totalLost (x : num) (u : t) : t :=
  Make (id u) (username u) (discordId u) (discordTag u) (balance u)
    (totalWagered u) (totalWon u) x (createdAt u) (gameHistory u).
Definition push_history (ev : game_event) (u : t) : t :=
  Make (id u) (username u) (discordId u) (discordTag u) (balance u)
    (totalWagered u) (totalWon u) (totalLost u) (createdAt u)
    (gameHistory u ++ [ev]).
Definition set_discord (did dtag : option string) (u : t) : t :=
  Make (id u) (username u) did dtag (balance u) (totalWagered u)
    (totalWon u) (totalLost u) (createdAt u) (gameHistory u).

(** The object literal of a new account: zero balances, empty history. *)
Definition fresh (uid name : string) (did dtag : option string)
    (now : string) : t :=
  Make uid name did dtag (Fin 0) (Fin 0) (Fin 0) (Fin 0) now [].
End User.

(** An element of [payments]. *)
Module Payment.
Inductive status_t : Type := pending | paid.

Record t : Type := Make {
  id : string;
  from : jsval;
  amount : num;
  timestamp : string;
  status : status_t;
  paidAmount : option num;
  processedAt : option string
}.

(** [payment.status = 'paid'; payment.paidAmount = x;
    payment.processedAt = now] *)
Definition resolve (x : num) (now : string) (p : t) : t :=
  Make (id p) (from p) (amount p) (timestamp p) paid (Some x) (Some now).
End Payment.

(** An element of the command queue (commands.json). *)
Module Command.
Inductive status_t : Type := pending | done.

Record t : Type := Make {
  id : string;
  command : string;
  status : status_t;
  createdAt : string
}.
End Command.

(** A value of [pendingLinks]. *)
Module Link.
Record t : Type := Make {
  discordId : string;
  discordTag : string;
  timestamp : num
}.
End Link.

(** ** The files and the environment *)

(** What commands.json holds, as [loadCommands] can tell: no file, a file
    that cannot be read or parsed, an array of commands, or valid JSON
    that is not an array. *)
Inductive commands_file : Type :=
| NoFile
| Unreadable
| Queue (cmds : list Command.t)
| NotAnArray.

Module Disk.
Record t : Type := Make {
  users_json : option (list User.t);
  payments_json : option (list Payment.t);
  commands_json : commands_file;
  links_json : option (gmap string Link.t)
}.
End Disk.

(** What one request observes of the outside world. *)
Module Env.
Record t : Type := Make {
  uuid : string;            (* uuidv4(), first call *)
  uuid' : string;           (* uuidv4(), second call *)
  iso_now : string;         (* new Date().toISOString(), first call *)
iso_now' : string;        (* new Date().toISOString(), second call *)
  now_ms : Z;               (* Date.now() *)
  random : Z;               (* Math.random(), see [Math_random] *)
  random_base36 : string;   (* Math.random().toString(36) *)
  PAYMENT_REPORT_TOKEN : option string;
  users_writable : bool;    (* does fs.writeFileSync go through *)
  payments_writable : bool;
  commands_writable : bool;
  links_writable : bool
}.
End Env.

(** The module-level variables of server.js and the files behind them. *)
Module State.
Record t : Type := Make {
  users : list User.t;
  payments : list Payment.t;
  pendingLinks : gmap string Link.t;
  disk : Disk.t
}.

Definition set_users (us : list User.t) (s : t) : t :=
  Make us (payments s) (pendingLinks s) (disk s).
Definition set_payments (ps : list Payment.t) (s : t) : t :=
  Make (users s) ps (pendingLinks s) (disk s).
Definition set_pendingLinks (m : gmap string Link.t) (s : t) : t :=
  Make (users s) (payments s) m (disk s).
Definition set_disk (d : Disk.t) (s : t) : t :=
  Make (users s) (payments s) (pendingLinks s) d.
End State.

(** [savePayments], [saveUsers], [savePendingLinks]: write the whole
    collection; a failed write is caught and logged, nothing else. *)
Definition savePayments (e : Env.t) (s : State.t) : State.t :=
  if Env.payments_writable e then
    let d := State.disk s in
    State.set_disk
      (Disk.Make (Disk.users_json d) (Some (State.payments s))
         (Disk.commands_json d) (Disk.links_json d)) s
  else s.

Definition saveUsers (e : Env.t) (s : State.t) : State.t :=
  if Env.users_writable e then
    let d := State.disk s in
    State.set_disk
      (Disk.Make (Some (State.users s)) (Disk.payments_json d)
         (Disk.commands_json d) (Disk.links_json d)) s
  else s.

Definition savePendingLinks (e : Env.t) (s : State.t) : State.t :=
  if Env.links_writable e then
    let d := State.disk s in
    State.set_disk
      (Disk.Make (Disk.users_json d) (Disk.payments_json d)
         (Disk.commands_json d) (Some (State.pendingLinks s))) s
  else s.

(** [loadCommands]: the parsed file, or [[]] when the file is absent or
    reading it throws; [None] stands for a parsed value that is no array. *)
Definition loadCommands (s : State.t) : option (list Command.t) :=
  match Disk.commands_json (State.disk s) with
  | NoFile | Unreadable => Some []
  | Queue cmds => Some cmds
  | NotAnArray => None
  end.

(** [saveCommands(cmds)] *)
Definition saveCommands (e : Env.t) (cmds : list Command.t) (s : State.t)
    : State.t :=
  if Env.commands_writable e then
    let d := State.disk s in
    State.set_disk
      (Disk.Make (Disk.users_json d) (Disk.payments_json d) (Queue cmds)
         (Disk.links_json d)) s
  else s.

(** ** Responses *)

Inductive body : Type :=
| Error (error : string)
| PaymentReported (payment : Payment.t) (userBalance : num)
| CommandQueued (message commandId : string)
| PaymentRemoved (message : string) (removed : Payment.t)
| AccountLinked (user : User.t)
| Redirect (url : string)
| BlackjackResult (won playerValue dealerValue : jsval) (winnings : num)
    (message : string) (user : User.t)
| PlinkoResult (won : bool) (payout : num) (multiplier : jsval)
    (message : string) (user : User.t)
| NumberResult (drawnNumber : num) (won : bool) (winnings : num)
    (message : string) (user : User.t)
| Withdrawal (message : string) (user : User.t)
| Uncaught.

Module Response.
Record t : Type := Make { status : Z; body : body }.
End Response.

Definition reply (code : Z) (b : body) : Response.t := Response.Make code b.

(** A handler that throws: Express answers 500 and keeps what the handler
    had already written. *)
Definition uncaught : Response.t := reply 500 Uncaught.

(** ** Looking up accounts and payments *)

(** The name a user is matched under. *)
Definition same_name (name : string) (u : User.t) : Prop :=
  toLowerCase (User.username u) = toLowerCase name.

#[global] Instance same_name_dec name u : Decision (same_name name u).
Proof. unfold same_name. apply _. Defined.

(** [users.find(u => u.username.toLowerCase() === name.toLowerCase())]:
    the first match with its index.  The callback runs only when there is
    a user to test, and throws a TypeError unless [name] is a string. *)
Definition find_user (us : list User.t) (name : jsval)
    : option (option (nat * User.t)) :=
  match us, name with
  | [], _ => Some None
  | _, VStr s => Some (list_find (same_name s) us)
  | _, _ => None
  end.

(** [name.trim()], a TypeError unless [name] is a string. *)
Definition trim_name (name : jsval) : option string :=
  match name with
  | VStr s => Some (trim s)
  | _ => None
  end.

Definition has_id (v : jsval) (p : Payment.t) : Prop := v = VStr (Payment.id p).

#[global] Instance num_eq_dec : EqDecision num.
Proof. solve_decision. Defined.
#[global] Instance jsval_eq_dec : EqDecision jsval.
Proof. solve_decision. Defined.
#[global] Instance has_id_dec v p : Decision (has_id v p).
Proof. unfold has_id. apply _. Defined.

(** [payments.find(p => p.id === paymentId)] *)
Definition find_payment (ps : list Payment.t) (paymentId : jsval)
    : option (nat * Payment.t) :=
  list_find (has_id paymentId) ps.

(** ** Payment ingestion and resolution *)

Fixpoint split_on (sep : ascii) (l cur : list ascii) : list string :=
  match l with
  | [] => [string_of_list_ascii (rev cur)]
  | c :: l' =>
      if Ascii.eqb c sep
      then string_of_list_ascii (rev cur) :: split_on sep l' []
      else split_on sep l' (c :: cur)
  end.

(** [req.headers.authorization?.split(' ')[1]] *)
Definition bearer (authorization : option string) : option string :=
  h ← authorization; split_on " " (list_ascii_of_string h) [] !! 1%nat.

(** [!token || token !== expected] *)
Definition unauthorized (token expected : option string) : bool :=
  match token with
  | None => true
  | Some t => String.eqb t "" || negb (bool_decide (expected = Some t))
  end.

Module ReportPayment.
Record t : Type := Make {
  authorization : option string;
  from : jsval;
  amount : jsval
}.
End ReportPayment.

(** POST /api/report-payment *)
Definition report_payment (e : Env.t) (rq : ReportPayment.t) (s : State.t)
    : Response.t * State.t :=
  let from := ReportPayment.from rq in
  let amount := ReportPayment.amount rq in
  if unauthorized (bearer (ReportPayment.authorization rq))
       (Env.PAYMENT_REPORT_TOKEN e)
  then (reply 401 (Error "Unauthorized"), s)
  else if negb (truthy from) || negb (truthy amount)
  then (reply 400 (Error "Missing from or amount"), s)
  else
    let payment :=
      Payment.Make (Env.uuid e) from (parseFloat amount) (Env.iso_now e)
        Payment.pending None None in
    let s1 := savePayments e
                (State.set_payments (State.payments s ++ [payment]) s) in
    match find_user (State.users s1) from with
    | None => (uncaught, s1)
    | Some (Some (i, user)) =>
        let user' :=
          User.set_balance (add (User.balance user) (Payment.amount payment))
            user in
        let s2 := saveUsers e
                    (State.set_users (<[i := user']> (State.users s1)) s1) in
        (reply 200 (PaymentReported payment (User.balance user')), s2)
    | Some None =>
        match trim_name from with
        | None => (uncaught, s1)
        | Some name =>
            let user :=
              User.fresh (Env.uuid' e) name None None (Env.iso_now' e) in
            let user' :=
              User.set_balance
                (add (User.balance user) (Payment.amount payment)) user in
            let s2 := saveUsers e
                        (State.set_users (State.users s1 ++ [user']) s1) in
            (reply 200 (PaymentReported payment (User.balance user')), s2)
        end
    end.

(** The queue entry both /api/pay and /api/withdraw build. *)
Definition pay_command (e : Env.t) (player : jsval) (amount : num)
    (createdAt : string) : Command.t :=
  Command.Make (Env.uuid e)
    ("/pay " ++ to_string player ++ " " ++ number_to_string amount)
    Command.pending createdAt.

(** POST /api/pay *)
Definition pay (e : Env.t) (paymentId : jsval) (s : State.t)
    : Response.t * State.t :=
  match find_payment (State.payments s) paymentId with
  | None => (reply 404 (Error "Payment not found"), s)
  | Some (i, payment) =>
      let doubleAmount := mul (Payment.amount payment) (Fin 2) in
      let player := Payment.from payment in
      let payment' := Payment.resolve doubleAmount (Env.iso_now e) payment in
      let s1 := savePayments e
                  (State.set_payments (<[i := payment']> (State.payments s)) s)
      in
      match loadCommands s1 with
      | Some cmds =>
          let cmdObj := pay_command e player doubleAmount (Env.iso_now' e) in
          let s2 := saveCommands e (cmds ++ [cmdObj]) s1 in
          (reply 200
             (CommandQueued
                ("Queued pay command for " ++ to_string player ++ " "
                   ++ number_to_string doubleAmount ++ " coins")
                (Command.id cmdObj)), s2)
      | None => (reply 500 (Error "Failed to queue command"), s1)
      end
  end.

(** POST /api/lose *)
Definition lose (e : Env.t) (paymentId : jsval) (s : State.t)
    : Response.t * State.t :=
  match find_payment (State.payments s) paymentId with
  | None => (reply 404 (Error "Payment not found"), s)
  | Some (index, removed) =>
      let s1 := savePayments e
                  (State.set_payments (delete index (State.payments s)) s) in
      (reply 200 (PaymentRemoved "Payment removed" removed), s1)
  end.

(** ** Games *)

(** [betAmount <= 0 || betAmount > user.balance] *)
Definition invalid_amount (betAmount balance : num) : bool :=
  leb betAmount (Fin 0) || gtb betAmount balance.

Module Blackjack.
Record t : Type := Make {
  username : jsval;
  wager : jsval;
  won : jsval;
  dealerValue : jsval;
  playerValue : jsval
}.
End Blackjack.

(** POST /api/games/blackjack *)
Definition blackjack (e : Env.t) (rq : Blackjack.t) (s : State.t)
    : Response.t * State.t :=
  let won := Blackjack.won rq in
  match find_user (State.users s) (Blackjack.username rq) with
  | None => (uncaught, s)
  | Some None => (reply 404 (Error "User not found"), s)
  | Some (Some (i, user)) =>
      let betAmount := parseFloat (Blackjack.wager rq) in
      if invalid_amount betAmount (User.balance user)
      then (reply 400 (Error "Invalid bet amount"), s)
      else
        let '(winnings, user) :=
          if truthy won then
            let winnings := mul betAmount (Fin 2) in
            let user := User.set_balance (sub (User.balance user) betAmount) user in
            let user := User.set_balance (add (User.balance user) winnings) user in
            let user := User.set_totalWon (add (User.totalWon user) winnings) user in
            (winnings, user)
          else
            let user := User.set_balance (sub (User.balance user) betAmount) user in
            let user := User.set_totalLost (add (User.totalLost user) betAmount) user in
            (Fin 0, user) in
        let user :=
          User.set_totalWagered (add (User.totalWagered user) betAmount) user in
        let user :=
          User.push_history
            (EvBlackjack betAmount won (Blackjack.playerValue rq)
               (Blackjack.dealerValue rq) winnings (Env.iso_now e)) user in
        let s1 := saveUsers e (State.set_users (<[i := user]> (State.users s)) s) in
        (reply 200
           (BlackjackResult won (Blackjack.playerValue rq)
              (Blackjack.dealerValue rq) winnings
              (if truthy won
               then "Blackjack! You won " ++ number_to_string winnings ++ " coins!"
               else "Dealer wins. You lost " ++ number_to_string betAmount ++ " coins.")
              user), s1)
  end.

Module Plinko.
Record t : Type := Make {
  username : jsval;
  wager : jsval;
  winAmount : jsval;
  multiplier : jsval
}.
End Plinko.

(** POST /api/games/plinko *)
Definition plinko (e : Env.t) (rq : Plinko.t) (s : State.t)
    : Response.t * State.t :=
  let multiplier := Plinko.multiplier rq in
  match find_user (State.users s) (Plinko.username rq) with
  | None => (uncaught, s)
  | Some None => (reply 404 (Error "User not found"), s)
  | Some (Some (i, user)) =>
      let betAmount := parseFloat (Plinko.wager rq) in
      if invalid_amount betAmount (User.balance user)
      then (reply 400 (Error "Invalid bet amount"), s)
      else
        let payout := parseFloat (Plinko.winAmount rq) in
        let won := gtb payout betAmount in
        let user := User.set_balance (sub (User.balance user) betAmount) user in
        let user := User.set_balance (add (User.balance user) payout) user in
        let user :=
          if won
          then User.set_totalWon (add (User.totalWon user) payout) user
          else User.set_totalLost (add (User.totalLost user) betAmount) user in
        let user :=
          User.set_totalWagered (add (User.totalWagered user) betAmount) user in
        let user :=
          User.push_history
            (EvPlinko betAmount won multiplier payout (Env.iso_now e)) user in
        let s1 := saveUsers e (State.set_users (<[i := user]> (State.users s)) s) in
        (reply 200
           (PlinkoResult won payout multiplier
              (if won
               then "Plinko! You won " ++ number_to_string payout ++ " coins!"
               else "Plinko! You got " ++ to_string multiplier ++ "x.")
              user), s1)
  end.

(** [Math.random()] returns a double [r] with [0 <= r < 1]: here the
    fraction [Math_random e / 2^53], a multiple of [2^-53]. *)
Definition Math_random (e : Env.t) : Z := Env.random e mod 2 ^ 53.

(** [Math.floor(Math.random() * 10) + 1], product and floor taken
    exactly. *)
Definition draw (e : Env.t) : Z := Math_random e * 10 / 2 ^ 53 + 1.

Module NumberGame.
Record t : Type := Make {
  username : jsval;
  wager : jsval;
  number : jsval
}.
End NumberGame.

(** POST /api/games/number *)
Definition number_game (e : Env.t) (rq : NumberGame.t) (s : State.t)
    : Response.t * State.t :=
  match find_user (State.users s) (NumberGame.username rq) with
  | None => (uncaught, s)
  | Some None => (reply 404 (Error "User not found"), s)
  | Some (Some (i, user)) =>
      let betAmount := parseFloat (NumberGame.wager rq) in
      let pickedNumber := parseInt (NumberGame.number rq) in
      if invalid_amount betAmount (User.balance user)
      then (reply 400 (Error "Invalid bet amount"), s)
      else if ltb pickedNumber (Fin 1) || gtb pickedNumber (Fin 10)
      then (reply 400 (Error "Number must be between 1 and 10"), s)
      else
        let drawnNumber := Fin (draw e) in
        let won := eqb drawnNumber pickedNumber in
        let winnings := if won then mul betAmount (Fin 10) else Fin 0 in
        let user := User.set_balance (sub (User.balance user) betAmount) user in
        let user :=
          if won then
            let user := User.set_balance (add (User.balance user) winnings) user in
            User.set_totalWon (add (User.totalWon user) winnings) user
          else User.set_totalLost (add (User.totalLost user) betAmount) user in
        let user :=
          User.set_totalWagered (add (User.totalWagered user) betAmount) user in
        let user :=
          User.push_history
            (EvNumber pickedNumber drawnNumber betAmount won winnings
               (Env.iso_now e)) user in
        let s1 := saveUsers e (State.set_users (<[i := user]> (State.users s)) s) in
        (reply 200
           (NumberResult drawnNumber won winnings
              (if won
               then "You picked " ++ number_to_string pickedNumber
                      ++ " and the number was " ++ number_to_string drawnNumber
                      ++ "! You won " ++ number_to_string winnings ++ " coins!"
               else "You picked " ++ number_to_string pickedNumber
                      ++ " but the number was " ++ number_to_string drawnNumber
                      ++ ". You lost " ++ number_to_string betAmount ++ " coins.")
              user), s1)
  end.

(** ** Withdrawal *)

Module Withdraw.
Record t : Type := Make {
  username : jsval;
  amount : jsval
}.
End Withdraw.

(** POST /api/withdraw *)
Definition withdraw (e : Env.t) (rq : Withdraw.t) (s : State.t)
    : Response.t * State.t :=
  let username := Withdraw.username rq in
  match find_user (State.users s) username with
  | None => (uncaught, s)
  | Some None => (reply 404 (Error "User not found"), s)
  | Some (Some (i, user)) =>
      let withdrawAmount := parseFloat (Withdraw.amount rq) in
      if invalid_amount withdrawAmount (User.balance user)
      then (reply 400 (Error "Invalid withdrawal amount"), s)
      else
        let user := User.set_balance (sub (User.balance user) withdrawAmount) user in
        let s1 := saveUsers e (State.set_users (<[i := user]> (State.users s)) s) in
        match loadCommands s1 with
        | Some cmds =>
            let cmdObj := pay_command e username withdrawAmount (Env.iso_now e) in
            let s2 := saveCommands e (cmds ++ [cmdObj]) s1 in
            (reply 200
               (Withdrawal
                  ("Withdrawal of " ++ number_to_string withdrawAmount
                     ++ " coins queued!") user), s2)
        | None =>
            let user := User.set_balance (add (User.balance user) withdrawAmount) user in
            let s2 := saveUsers e (State.set_users (<[i := user]> (State.users s1)) s1) in
            (reply 500 (Error "Failed to queue withdrawal"), s2)
        end
  end.

(** ** Linking a Discord identity *)

(** The property names every object inherits from [Object.prototype]:
    [pendingLinks[name]] is truthy for them although no code was stored. *)
Definition inherited_names : list string :=
  ["constructor"; "__defineGetter__"; "__defineSetter__"; "hasOwnProperty";
   "__lookupGetter__"; "__lookupSetter__"; "isPrototypeOf";
   "propertyIsEnumerable"; "toString"; "valueOf"; "__proto__";
   "toLocaleString"].

(** What [pendingLinks[key]] evaluates to. *)
Inductive link_data : Type :=
| Stored (l : Link.t)
| Inherited
| Undefined.

Definition get_link (links : gmap string Link.t) (key : string) : link_data :=
  match links !! key with
  | Some l => Stored l
  | None => if bool_decide (key ∈ inherited_names) then Inherited else Undefined
  end.

(** [linkData.timestamp], [linkData.discordId] and [linkData.discordTag];
    an inherited function or object has none of them. *)
Definition link_timestamp (d : link_data) : num :=
  match d with Stored l => Link.timestamp l | _ => NaN end.
Definition link_discordId (d : link_data) : option string :=
  match d with Stored l => Some (Link.discordId l) | _ => None end.
Definition link_discordTag (d : link_data) : option string :=
  match d with Stored l => Some (Link.discordTag l) | _ => None end.

(** [24 * 60 * 60 * 1000] *)
Definition expiry_ms : Z := 24 * 60 * 60 * 1000.

(** GET /api/discord/callback once Discord has returned the identity:
    an identity some account holds logs in ([None]); otherwise a code is
    issued, stored with the time of issue, and returned. *)
Definition discord_callback (e : Env.t) (discordId discordTag : string)
    (s : State.t) : option string * State.t :=
  match list_find (λ u, User.discordId u = Some discordId) (State.users s) with
  | Some _ => (None, s)
  | None =>
      let linkingCode := toUpperCase (substring 2 6 (Env.random_base36 e)) in
      let link := Link.Make discordId discordTag (Fin (Env.now_ms e)) in
      (Some linkingCode,
       savePendingLinks e
         (State.set_pendingLinks (<[linkingCode := link]> (State.pendingLinks s))
            s))
  end.

Module LinkAccount.
Record t : Type := Make {
  username : jsval;
  linkingCode : jsval
}.
End LinkAccount.

(** POST /api/link-account *)
Definition link_account (e : Env.t) (rq : LinkAccount.t) (s : State.t)
    : Response.t * State.t :=
  let username := LinkAccount.username rq in
  let linkingCode := LinkAccount.linkingCode rq in
  if negb (truthy username) || negb (truthy linkingCode)
  then (reply 400 (Error "Username and linking code required"), s)
  else
    let key := to_string linkingCode in
    match get_link (State.pendingLinks s) key with
    | Undefined => (reply 400 (Error "Invalid or expired linking code"), s)
    | linkData =>
        if gtb (sub (Fin (Env.now_ms e)) (link_timestamp linkData))
             (Fin expiry_ms)
        then
          (reply 400 (Error "Linking code expired"),
           savePendingLinks e
             (State.set_pendingLinks (delete key (State.pendingLinks s)) s))
        else
          match find_user (State.users s) username with
          | None => (uncaught, s)
          | Some found =>
              let linked :=
                match found with
                | None =>
                    name ← trim_name username;
                    let user :=
                      User.fresh (Env.uuid e) name (link_discordId linkData)
                        (link_discordTag linkData) (Env.iso_now e) in
                    Some (user, (State.users s ++ [user])%list)
                | Some (i, user) =>
                    let user :=
                      User.set_discord (link_discordId linkData)
                        (link_discordTag linkData) user in
                    Some (user, <[i := user]> (State.users s))
                end in
              match linked with
              | None => (uncaught, s)
              | Some (user, users') =>
                  let s1 := saveUsers e (State.set_users users' s) in
                  let s2 :=
                    savePendingLinks e
                      (State.set_pendingLinks
                         (delete key (State.pendingLinks s1)) s1) in
                  (reply 200 (AccountLinked user), s2)
              end
          end
    end.

(** ** The game router *)

(** The three game routes, as one call. *)
Inductive game_call : Type :=
| PlayBlackjack (rq : Blackjack.t)
| PlayPlinko (rq : Plinko.t)
| PlayNumber (rq : NumberGame.t).

Definition play (e : Env.t) (c : game_call) (s : State.t)
    : Response.t * State.t :=
  match c with
  | PlayBlackjack rq => blackjack e rq s
  | PlayPlinko rq => plinko e rq s
  | PlayNumber rq => number_game e rq s
  end.

Definition call_username (c : game_call) : jsval :=
  match c with
  | PlayBlackjack rq => Blackjack.username rq
  | PlayPlinko rq => Plinko.username rq
  | PlayNumber rq => NumberGame.username rq
  end.

Definition call_wager (c : game_call) : jsval :=
  match c with
  | PlayBlackjack rq => Blackjack.wager rq
  | PlayPlinko rq => Plinko.wager rq
  | PlayNumber rq => NumberGame.wager rq
  end.

(** [pickedNumber < 1 || pickedNumber > 10], the second guard of the
    number game; the other games have none. *)
Definition pick_rejected (c : game_call) : bool :=
  match c with
  | PlayNumber rq =>
      let pickedNumber := parseInt (NumberGame.number rq) in
      ltb pickedNumber (Fin 1) || gtb pickedNumber (Fin 10)
  | _ => false
  end.

(** What a response pays out: [winnings] or [payout] of a game result,
    nothing otherwise. *)
Definition payout_of (r : Response.t) : num :=
  match Response.body r with
  | BlackjackResult _ _ _ winnings _ _ => winnings
  | PlinkoResult _ payout _ _ _ => payout
  | NumberResult _ _ winnings _ _ => winnings
  | _ => Fin 0
  end.

(** The balance of the account at index [i]. *)
Definition balance_at (s : State.t) (i : nat) : option num :=
  User.balance <$> State.users s !! i.

(** The queue a reader of commands.json obtains. *)
Definition queue (s : State.t) : option (list Command.t) := loadCommands s.

(** ** Operations on the payments collection *)

(** The three routes that write [payments]. *)
Inductive payment_op : Type :=
| Ingest (rq : ReportPayment.t)
| Pay (paymentId : jsval)
| Deny (paymentId : jsval).

Definition run_op (e : Env.t) (op : payment_op) (s : State.t)
    : Response.t * State.t :=
  match op with
  | Ingest rq => report_payment e rq s
  | Pay paymentId => pay e paymentId s
  | Deny paymentId => lose e paymentId s
  end.

(** The record /api/report-payment builds. *)
Definition new_payment (e : Env.t) (rq : ReportPayment.t) : Payment.t :=
  Payment.Make (Env.uuid e) (ReportPayment.from rq)
    (parseFloat (ReportPayment.amount rq)) (Env.iso_now e)
    Payment.pending None None.

(** What the payer [name] holds before a call: the balance of the first
    account of that name, zero when there is no such account yet. *)
Definition balance_of (s : State.t) (name : string) : num :=
  match list_find (same_name name) (State.users s) with
  | Some (_, user) => User.balance user
  | None => Fin 0
  end.

(** Where the payer's account is once the call has run: at its index, or
    at the end of [users] when the call creates it. *)
Definition payer_index (s : State.t) (name : string) : nat :=
  match list_find (same_name name) (State.users s) with
  | Some (i, _) => i
  | None => length (State.users s)
  end.

(** ** Sample data *)

Module Sample.
Definition env : Env.t :=
  Env.Make "id-1" "id-2" "2024-01-01T00:00:00.000Z"
    "2024-01-01T00:00:00.001Z" 1704067200000
    5854679515581645 "0.4fzyo82mvyr" (Some "tok")
    true true true true.

(** A later request: other identifiers, one minute on. *)
Definition env_later : Env.t :=
  Env.Make "id-3" "id-4" "2024-01-01T00:01:00.000Z"
    "2024-01-01T00:01:00.001Z" 1704067260000
    5854679515581645 "0.9k2xw1" (Some "tok")
    true true true true.

(** A third request, another minute on. *)
Definition env_last : Env.t :=
  Env.Make "id-5" "id-6" "2024-01-01T00:02:00.000Z"
    "2024-01-01T00:02:00.001Z" 1704067320000
    5854679515581645 "0.c7w0qjz" (Some "tok")
    true true true true.

(** Twenty-five hours after [env]. *)
Definition env_next_day : Env.t :=
  Env.Make "id-7" "id-8" "2024-01-02T01:00:00.000Z"
    "2024-01-02T01:00:00.001Z" 1704157200000
    5854679515581645 "0.k1v9d3t" (Some "tok")
    true true true true.

(** As [env], but writing commands.json fails. *)
Definition env_queue_readonly : Env.t :=
  Env.Make "id-1" "id-2" "2024-01-01T00:00:00.000Z"
    "2024-01-01T00:00:00.001Z" 1704067200000
    5854679515581645 "0.4fzyo82mvyr" (Some "tok")
    true true false true.

Definition empty : State.t :=
  State.Make [] [] ∅ (Disk.Make None None NoFile None).

Definition account (name : string) (balance : Z) : User.t :=
  User.Make "u-1" name None None (Fin balance) (Fin 0) (Fin 0) (Fin 0)
    "2023-12-31T00:00:00.000Z" [].

(** Bob holds 50 coins. *)
Definition bob50 : State.t :=
  State.Make [account "Bob" 50] [] ∅ (Disk.Make None None NoFile None).

(** Alice holds 100 coins. *)
Definition alice100 : State.t :=
  State.Make [account "Alice" 100] [] ∅ (Disk.Make None None NoFile None).

Definition report (name : string) (amount : jsval) : ReportPayment.t :=
  ReportPayment.Make (Some "Bearer tok") (VStr name) amount.

(** A fresh server after the bot has reported that Alice paid 100. *)
Definition alice_reported : State.t :=
  snd (report_payment env (report "Alice" (VNum (Fin 100))) empty).

(** Bob's server after a Discord login has issued the code 4FZYO8. *)
Definition bob_code_issued : State.t :=
  snd (discord_callback env "discord-1" "bob#0001" bob50).

(** Bob's server with a commands.json that holds an object, not a list. *)
Definition bob50_queue_corrupt : State.t :=
  State.Make [account "Bob" 50] [] ∅ (Disk.Make None None NotAnArray None).

(** ... and after the operator has paid that payment out. *)
Definition alice_paid : State.t :=
  snd (pay env_later (VStr "id-1") alice_reported).
End Sample.

(** ** The remaining routes of server.js *)

(** The bodies these routes answer with. *)
Inductive payload : Type :=
| Refused (error : string)                          (* { error } *)
| Succeeded (message : string)                      (* { success, message } *)
| SucceededWith (message : string) (user : User.t)  (* { success, message, user } *)
| Updated (user : User.t)                           (* { success, user } *)
| Found (user : User.t)                             (* { user } *)
| Threw.                                            (* an uncaught TypeError *)

Module Answer.
Record t : Type := Make { status : Z; payload : payload }.
End Answer.

Definition answer (code : Z) (p : payload) : Answer.t := Answer.Make code p.

Module Deposit.
Record t : Type := Make {
  username : jsval;
  amount : jsval
}.
End Deposit.



Module SetBalance.
Record t : Type := Make {
  authorization : option string;
  username : jsval;
  balance : jsval
}.
End SetBalance.

(** POST /api/admin/set-balance; [AUTH_TOKEN] is [process.env.AUTH_TOKEN]. *)
Definition admin_set_balance (AUTH_TOKEN : option string) (e : Env.t)
    (rq : SetBalance.t) (s : State.t) : Answer.t * State.t :=
  if unauthorized (bearer (SetBalance.authorization rq)) AUTH_TOKEN
  then (answer 401 (Refused "Unauthorized"), s)
  else
    match SetBalance.username rq, SetBalance.balance rq with
    | VStr username, VNum balance =>
        match list_find (same_name username) (State.users s) with
        | None => (answer 404 (Refused "User not found"), s)
        | Some (i, user) =>
            let prev := User.balance user in
            let user := User.set_balance balance user in
            let user :=
              User.push_history
                (EvAdminSetBalance prev balance (Env.iso_now e)) user in
            let s1 :=
              saveUsers e (State.set_users (<[i := user]> (State.users s)) s) in
            (answer 200 (Updated user), s1)
        end
    | _, _ => (answer 400 (Refused "Invalid parameters"), s)
    end.

Module AdjustBalance.
Record t : Type := Make {
  authorization : option string;
  username : jsval;
  delta : jsval
}.
End AdjustBalance.


(** POST /api/clear-all *)
Definition clear_all (AUTH_TOKEN : option string) (e : Env.t)
    (authorization : option string) (s : State.t) : Answer.t * State.t :=
  if unauthorized (bearer authorization) AUTH_TOKEN
  then (answer 401 (Refused "Unauthorized"), s)
  else
    let count := length (State.payments s) in
    let s1 := savePayments e (State.set_payments [] s) in
    (answer 200
       (Succeeded
          ("Cleared " ++ number_to_string (Fin (Z.of_nat count)) ++ " payments")),
     s1).

(** [!user.discordId]: absent, [null] or the empty string. *)
Definition no_identity (u : User.t) : bool :=
  match User.discordId u with
  | None => true
  | Some d => String.eqb d ""
  end.

(** POST /api/unlink-discord *)
Definition unlink_discord (e : Env.t) (username : jsval) (s : State.t)
    : Answer.t * State.t :=
  if negb (truthy username)
  then (answer 400 (Refused "Username required"), s)
  else
    match find_user (State.users s) username with
    | None => (answer 500 Threw, s)
    | Some None => (answer 404 (Refused "User not found"), s)
    | Some (Some (i, user)) =>
        if no_identity user
        then (answer 400 (Refused "No Discord account linked"), s)
        else
          let user := User.set_discord None None user in
          let s1 :=
            saveUsers e (State.set_users (<[i := user]> (State.users s)) s) in
          (answer 200 (Succeeded "Discord account unlinked"), s1)
    end.

(** [u.discordId === discordId] *)
Definition holds_identity (discordId : jsval) (u : User.t) : Prop :=
  VStr <$> User.discordId u = Some discordId.

#[global] Instance holds_identity_dec v u : Decision (holds_identity v u).
Proof. unfold holds_identity. apply _. Defined.

(** POST /api/discord-login *)
Definition discord_login (discordId : jsval) (s : State.t) : Answer.t :=
  if negb (truthy discordId)
  then answer 400 (Refused "Discord ID required")
  else
    match list_find (holds_identity discordId) (State.users s) with
    | Some (_, user) => answer 200 (Found user)
    | None =>
        answer 404
          (Refused "Discord account not linked. Please link your account first.")
    end.

(** ** The command drain of minecraft-bot.js *)

(** An element of commands.json as the bot holds it: a command, and the
    two fields the bot adds when it has executed it. *)
Module Entry.
Record t : Type := Make {
  command : Command.t;
  executedAt : option string;
  executedBy : option string
}.
End Entry.

(** What the bot finds in commands.json. *)
Inductive bot_file : Type :=
| BotNoFile
| BotUnreadable
| BotQueue (cmds : list Entry.t)
| BotNotAnArray.

(** What one pass of the bot observes: whether [bot.chat] goes through
    for the entry at a given position, the clock then, the bot's name,
    and whether commands.json can be written. *)
Module Bot.
Record t : Type := Make {
  chat_ok : nat -> bool;
  iso_at : nat -> string;
  username : string;
  commands_writable : bool
}.
End Bot.

(** [loadCommands] of the bot; [None] for a parsed value that is no array
    (the loop over it throws, or finds no entry with a status). *)
Definition bot_loadCommands (f : bot_file) : option (list Entry.t) :=
  match f with
  | BotNoFile | BotUnreadable => Some []
  | BotQueue cmds => Some cmds
  | BotNotAnArray => None
  end.

(** [saveCommands] of the bot *)
Definition bot_saveCommands (b : Bot.t) (cmds : list Entry.t) (f : bot_file)
    : bot_file :=
  if Bot.commands_writable b then BotQueue cmds else f.

(** [c.status = 'done'; c.executedAt = now; c.executedBy = bot.username] *)
Definition mark_done (b : Bot.t) (i : nat) (c : Entry.t) : Entry.t :=
  let cmd := Entry.command c in
  Entry.Make
    (Command.Make (Command.id cmd) (Command.command cmd) Command.done
       (Command.createdAt cmd))
    (Some (Bot.iso_at b i)) (Some (Bot.username b)).

(** The loop [for (const c of cmds)] from position [i] on: the entries
    afterwards, the commands handed to the chat, and [changed]. *)
Fixpoint drain (b : Bot.t) (i : nat) (cmds : list Entry.t)
    : list Entry.t * list string * bool :=
  match cmds with
  | [] => ([], [], false)
  | c :: rest =>
      let '(rest', sent, changed) := drain b (S i) rest in
      match Command.status (Entry.command c) with
      | Command.pending =>
          if Bot.chat_ok b i
          then (mark_done b i c :: rest',
                Command.command (Entry.command c) :: sent, true)
          else (c :: rest', sent, changed)
      | Command.done => (c :: rest', sent, changed)
      end
  end.

(** One tick of the two-second poll: the file afterwards and the commands
    sent to the game, in order. *)
Definition poll (b : Bot.t) (f : bot_file) : bot_file * list string :=
  match bot_loadCommands f with
  | Some cmds =>
      let '(cmds', sent, changed) := drain b 0 cmds in
      (if changed then bot_saveCommands b cmds' f else f, sent)
  | None => (f, [])
  end.

(** A command as the server wrote it: no execution fields yet. *)
Definition unexecuted (c : Command.t) : Entry.t := Entry.Make c None None.


(** An entry still to be executed. *)
Definition is_pending (c : Entry.t) : bool :=
  match Command.status (Entry.command c) with
  | Command.pending => true
  | Command.done => false
  end.

(** The text an entry hands to the chat. *)
Definition entry_text (c : Entry.t) : string :=
  Command.command (Entry.command c).

(** ** The periodic backup of users.json *)

(** [iso.replace(/[:.]/g, '-')] *)
Definition dashes (iso : string) : string :=
  string_of_list_ascii
    (List.map (fun c => if (Ascii.eqb c ":" || Ascii.eqb c ".")%bool
                        then "-"%char else c)
       (list_ascii_of_string iso)).

(** [`users-backup-${timestamp}.json`] *)
Definition backup_name (iso : string) : string :=
  "users-backup-" ++ dashes iso ++ ".json".

(** [f.startsWith('users-backup-')] *)
Definition is_backup (f : string) : bool := String.prefix "users-backup-" f.

(** The order of [Array.prototype.sort] without a comparator, on ASCII
    names. *)
Definition name_le (a b : string) : Prop := String.leb a b = true.

#[global] Instance name_le_dec a b : Decision (name_le a b).
Proof. unfold name_le. apply _. Defined.

(** What one backup tick observes. *)
Module BackupEnv.
Record t : Type := Make {
  iso_now : string;
  copy_ok : bool;               (* fs.copyFileSync goes through *)
  readdir_ok : bool;            (* fs.readdirSync goes through *)
  unlink_ok : string -> bool    (* fs.unlinkSync goes through for a name *)
}.
End BackupEnv.

(** [while (files.length > 20) { const rm = files.shift(); unlink rm }],
    an unlink that fails being passed over. *)
Fixpoint prune (b : BackupEnv.t) (files : list string)
    (dir : gmap string (list User.t)) : gmap string (list User.t) :=
  match files with
  | rm :: rest =>
      if (20 <? length files)%nat
      then prune b rest (if BackupEnv.unlink_ok b rm then delete rm dir else dir)
      else dir
  | [] => dir
  end.

(** The names the tick lists: the backups of the directory, sorted. *)
Definition backup_files (dir : gmap string (list User.t)) : list string :=
  merge_sort name_le
    (filter (λ f, is_backup f = true) (elements (dom dir))).

(** The body of the five-minute timer: copy users.json into [backups/]
    under a dated name, then prune.  The directory maps file names to the
    users they hold.  A copy or a listing that throws ends the tick. *)
Definition backup_tick (b : BackupEnv.t) (s : State.t)
    (dir : gmap string (list User.t)) : gmap string (list User.t) :=
  match Disk.users_json (State.disk s) with
  | Some users =>
      if BackupEnv.copy_ok b then
        let dir1 := <[backup_name (BackupEnv.iso_now b) := users]> dir in
        if BackupEnv.readdir_ok b
        then prune b (backup_files dir1) dir1
        else dir1
      else dir
  | None => dir
  end.


(** ** Further sample data *)

Module Scene.
(** The administrator's secret. *)
Definition admin_token : option string := Some "s3cret".

(** Bob holds 50 coins and is linked to a Discord identity; Carol holds 7. *)
Definition bob_linked : State.t :=
  State.Make
    [User.Make "u-1" "Bob" (Some "discord-1") (Some "bob#0001") (Fin 50)
       (Fin 0) (Fin 0) (Fin 0) "2023-12-31T00:00:00.000Z" [];
     User.Make "u-2" "Carol" None None (Fin 7)
       (Fin 0) (Fin 0) (Fin 0) "2023-12-31T00:00:00.000Z" []]
    [] ∅ (Disk.Make None None NoFile None).

(** ... while a second code, issued to discord-1 before Bob used the
    first, is still pending. *)
Definition bob_linked_code_issued : State.t :=
  State.set_pendingLinks
    {[ "4FZYO8" := Link.Make "discord-1" "bob#0001" (Fin 1704067200000) ]}
    bob_linked.

(** A pass of the bot in which every chat goes through. *)
Definition bot : Bot.t :=
  Bot.Make (fun _ => true) (fun _ => "2024-01-01T00:03:00.000Z") "PayBot" true.

(** The same pass while commands.json cannot be written. *)
Definition bot_readonly : Bot.t :=
  Bot.Make (fun _ => true) (fun _ => "2024-01-01T00:03:00.000Z") "PayBot" false.

(** A queue with one command executed and two waiting. *)
Definition queue_file : bot_file :=
  BotQueue
    [Entry.Make
       (Command.Make "c-1" "/pay Alice 200" Command.done
          "2024-01-01T00:01:00.001Z")
       (Some "2024-01-01T00:01:02.000Z") (Some "PayBot");
     unexecuted
       (Command.Make "c-2" "/pay Bob 40" Command.pending
          "2024-01-01T00:02:00.000Z");
     unexecuted
       (Command.Make "c-3" "/pay Carol 7" Command.pending
          "2024-01-01T00:02:30.000Z")].

(** Bob's and Carol's accounts once users.json has been written. *)
Definition bob_saved : State.t := saveUsers Sample.env bob_linked.

(** Twenty ticks of the backup timer, five minutes apart. *)
Definition ticks : list string :=
    ["2024-01-01T00:00:00.000Z"; "2024-01-01T00:05:00.000Z";
     "2024-01-01T00:10:00.000Z"; "2024-01-01T00:15:00.000Z";
     "2024-01-01T00:20:00.000Z"; "2024-01-01T00:25:00.000Z";
     "2024-01-01T00:30:00.000Z"; "2024-01-01T00:35:00.000Z";
     "2024-01-01T00:40:00.000Z"; "2024-01-01T00:45:00.000Z";
     "2024-01-01T00:50:00.000Z"; "2024-01-01T00:55:00.000Z";
     "2024-01-01T01:00:00.000Z"; "2024-01-01T01:05:00.000Z";
     "2024-01-01T01:10:00.000Z"; "2024-01-01T01:15:00.000Z";
     "2024-01-01T01:20:00.000Z"; "2024-01-01T01:25:00.000Z";
     "2024-01-01T01:30:00.000Z"; "2024-01-01T01:35:00.000Z"].

(** The backups directory after those ticks, next to a file of notes. *)
Definition backups : gmap string (list User.t) :=
  <["notes.txt" := []]>
    (list_to_map ((λ iso, (backup_name iso, [])) <$> ticks)).

(** The twenty-first tick, nothing failing. *)
Definition timer : BackupEnv.t :=
  BackupEnv.Make "2024-01-01T01:40:00.000Z" true true (fun _ => true).

(** The same tick while the directory cannot be listed. *)
Definition timer_unlisted : BackupEnv.t :=
  BackupEnv.Make "2024-01-01T01:40:00.000Z" true false (fun _ => true).
End Scene.

Local Open Scope list_scope.

(** ** Numbers *)

Section Numbers.

Lemma cmp_antisym a b : cmp b a = CompOpp <$> cmp a b.
Proof.
  destruct a, b; simpl; try reflexivity.
  f_equal. apply Z.compare_antisym.
Qed.

Lemma ltb_leb_false a b : ltb a b = true → leb b a = false.
Proof.
  unfold ltb, leb. rewrite (cmp_antisym a b).
  destruct (cmp a b) as [[]|]; simpl; congruence.
Qed.

Lemma leb_gtb_false a b : leb a b = true → gtb a b = false.
Proof.
  unfold leb, gtb, ltb. rewrite (cmp_antisym a b).
  destruct (cmp a b) as [[]|]; simpl; congruence.
Qed.

(** A positive, affordable amount passes the guard. *)
Lemma valid_amount w b :
  ltb (Fin 0) w = true → leb w b = true → invalid_amount w b = false.
Proof.
  intros H0 Hb. unfold invalid_amount.
  by rewrite (ltb_leb_false _ _ H0), (leb_gtb_false _ _ Hb).
Qed.

(** [NaN] is neither [<= 0] nor [> balance]. *)
Lemma nan_amount_not_invalid b : invalid_amount NaN b = false.
Proof. by destruct b. Qed.

Lemma add_nan_l a : add NaN a = NaN.
Proof. by destruct a. Qed.

Lemma add_nan_r a : add a NaN = NaN.
Proof. by destruct a. Qed.

Lemma sub_nan_r a : sub a NaN = NaN.
Proof. by destruct a. Qed.

Lemma add_zero_r a : add a (Fin 0) = a.
Proof. destruct a; simpl; try reflexivity. f_equal. lia. Qed.

(** A debit followed by a credit of the same finite amount cancels. *)
Lemma sub_add_cancel b w : add (sub (Fin b) (Fin w)) (Fin w) = Fin b.
Proof. simpl. f_equal. lia. Qed.


Lemma gtb_fin a b : gtb (Fin a) (Fin b) = true ↔ b < a.
Proof.
  unfold gtb, ltb. simpl. destruct (Z.compare_spec b a); split; (lia || done).
Qed.

Lemma leb_fin a b : leb (Fin a) (Fin b) = true ↔ a ≤ b.
Proof.
  unfold leb. simpl. destruct (Z.compare_spec a b); split; (lia || done).
Qed.

Lemma sub_fin a b : sub (Fin a) (Fin b) = Fin (a - b).
Proof. reflexivity. Qed.


End Numbers.

(** ** Saving leaves the collections in memory alone *)

Section Saving.
Context (e : Env.t) (s : State.t).

Lemma users_saveUsers : State.users (saveUsers e s) = State.users s.
Proof. unfold saveUsers. by destruct (Env.users_writable e). Qed.

Lemma payments_saveUsers : State.payments (saveUsers e s) = State.payments s.
Proof. unfold saveUsers. by destruct (Env.users_writable e). Qed.

Lemma links_saveUsers :
  State.pendingLinks (saveUsers e s) = State.pendingLinks s.
Proof. unfold saveUsers. by destruct (Env.users_writable e). Qed.

Lemma queue_saveUsers : loadCommands (saveUsers e s) = loadCommands s.
Proof. unfold saveUsers, loadCommands. by destruct (Env.users_writable e). Qed.

Lemma users_savePayments : State.users (savePayments e s) = State.users s.
Proof. unfold savePayments. by destruct (Env.payments_writable e). Qed.

Lemma payments_savePayments :
  State.payments (savePayments e s) = State.payments s.
Proof. unfold savePayments. by destruct (Env.payments_writable e). Qed.

Lemma queue_savePayments : loadCommands (savePayments e s) = loadCommands s.
Proof.
  unfold savePayments, loadCommands. by destruct (Env.payments_writable e).
Qed.

Lemma queue_set_users us : loadCommands (State.set_users us s) = loadCommands s.
Proof. reflexivity. Qed.

Lemma queue_set_payments ps :
  loadCommands (State.set_payments ps s) = loadCommands s.
Proof. reflexivity. Qed.

Lemma users_savePendingLinks :
  State.users (savePendingLinks e s) = State.users s.
Proof. unfold savePendingLinks. by destruct (Env.links_writable e). Qed.

Lemma links_savePendingLinks :
  State.pendingLinks (savePendingLinks e s) = State.pendingLinks s.
Proof. unfold savePendingLinks. by destruct (Env.links_writable e). Qed.

Lemma users_saveCommands cmds :
  State.users (saveCommands e cmds s) = State.users s.
Proof. unfold saveCommands. by destruct (Env.commands_writable e). Qed.

Lemma payments_saveCommands cmds :
  State.payments (saveCommands e cmds s) = State.payments s.
Proof. unfold saveCommands. by destruct (Env.commands_writable e). Qed.

Lemma queue_saveCommands cmds :
  loadCommands (saveCommands e cmds s)
  = if Env.commands_writable e then Some cmds else loadCommands s.
Proof. unfold saveCommands, loadCommands. by destruct (Env.commands_writable e). Qed.

End Saving.


(** ** Lookups *)

Lemma find_user_found us name i user :
  find_user us name = Some (Some (i, user)) →
  us !! i = Some user ∧ ∃ n, name = VStr n ∧ same_name n user.
Proof.
  unfold find_user. destruct us as [|u0 us]; [done|].
  destruct name as [| |b|n|n]; try done.
  intros H.
  assert (list_find (same_name n) (u0 :: us) = Some (i, user)) as Hf
    by congruence.
  apply list_find_Some in Hf as (Hi & Hn & _). eauto.
Qed.

Lemma balance_at_updated e s i user user' :
  State.users s !! i = Some user →
  balance_at (saveUsers e (State.set_users (<[i := user']> (State.users s)) s)) i
  = Some (User.balance user').
Proof.
  intros Hi. unfold balance_at. rewrite users_saveUsers. simpl.
  rewrite list_lookup_insert_eq; [done|]. by eapply lookup_lt_Some.
Qed.

(** ** The game endpoints *)

Section Games.
Context (e : Env.t) (s : State.t) (i : nat) (user : User.t).

(** An accepted blackjack call: the balance written and the winnings. *)
Lemma blackjack_accepted rq :
  find_user (State.users s) (Blackjack.username rq) = Some (Some (i, user)) →
  invalid_amount (parseFloat (Blackjack.wager rq)) (User.balance user) = false →
  let w := parseFloat (Blackjack.wager rq) in
  let r := fst (blackjack e rq s) in
  Response.status r = 200
  ∧ payout_of r = (if truthy (Blackjack.won rq) then mul w (Fin 2) else Fin 0)
  ∧ balance_at (snd (blackjack e rq s)) i
    = Some (add (sub (User.balance user) w) (payout_of r)).
Proof.
  intros Hfind Hok. apply find_user_found in Hfind as Hi. destruct Hi as [Hi _].
  unfold blackjack. rewrite Hfind, Hok.
  destruct (truthy (Blackjack.won rq)); cbn -[parseFloat];
    rewrite (balance_at_updated _ _ _ _ _ Hi); cbn -[parseFloat];
    by rewrite ?add_zero_r.
Qed.

(** An accepted plinko call: the payout is the caller's [winAmount]. *)
Lemma plinko_accepted rq :
  find_user (State.users s) (Plinko.username rq) = Some (Some (i, user)) →
  invalid_amount (parseFloat (Plinko.wager rq)) (User.balance user) = false →
  let w := parseFloat (Plinko.wager rq) in
  let r := fst (plinko e rq s) in
  Response.status r = 200
  ∧ payout_of r = parseFloat (Plinko.winAmount rq)
  ∧ balance_at (snd (plinko e rq s)) i
    = Some (add (sub (User.balance user) w) (payout_of r)).
Proof.
  intros Hfind Hok. apply find_user_found in Hfind as Hi. destruct Hi as [Hi _].
  unfold plinko. rewrite Hfind, Hok.
  destruct (gtb (parseFloat (Plinko.winAmount rq)) (parseFloat (Plinko.wager rq)));
    cbn -[parseFloat]; by rewrite (balance_at_updated _ _ _ _ _ Hi).
Qed.

(** An accepted number-game call: the draw decides the winnings. *)
Lemma number_game_accepted rq :
  find_user (State.users s) (NumberGame.username rq) = Some (Some (i, user)) →
  invalid_amount (parseFloat (NumberGame.wager rq)) (User.balance user) = false →
  pick_rejected (PlayNumber rq) = false →
  let w := parseFloat (NumberGame.wager rq) in
  let won := eqb (Fin (draw e)) (parseInt (NumberGame.number rq)) in
  let r := fst (number_game e rq s) in
  Response.status r = 200
  ∧ (∃ message user',
       Response.body r
       = NumberResult (Fin (draw e)) won
           (if won then mul w (Fin 10) else Fin 0) message user')
  ∧ balance_at (snd (number_game e rq s)) i
    = Some (add (sub (User.balance user) w) (payout_of r)).
Proof.
  intros Hfind Hok Hpick. apply find_user_found in Hfind as Hi.
  destruct Hi as [Hi _]. unfold pick_rejected in Hpick.
  unfold number_game. rewrite Hfind, Hok, Hpick.
  destruct (eqb (Fin (draw e)) (parseInt (NumberGame.number rq)));
    cbn -[parseFloat parseInt draw];
    rewrite (balance_at_updated _ _ _ _ _ Hi); cbn -[parseFloat parseInt draw];
    rewrite ?add_zero_r; eauto.
Qed.



(** Every accepted game call settles as debit-then-credit. *)
Lemma play_accepted c :
  find_user (State.users s) (call_username c) = Some (Some (i, user)) →
  invalid_amount (parseFloat (call_wager c)) (User.balance user) = false →
  pick_rejected c = false →
  Response.status (fst (play e c s)) = 200
  ∧ balance_at (snd (play e c s)) i
    = Some (add (sub (User.balance user) (parseFloat (call_wager c)))
              (payout_of (fst (play e c s)))).
Proof.
  intros Hfind Hok Hpick. destruct c as [rq|rq|rq]; cbn [play call_username call_wager] in *.
  - by destruct (blackjack_accepted rq Hfind Hok) as (? & _ & ?).
  - by destruct (plinko_accepted rq Hfind Hok) as (? & _ & ?).
  - by destruct (number_game_accepted rq Hfind Hok Hpick) as (? & _ & ?).
Qed.

End Games.

(** ** Claims about the game endpoints *)




(** C10.  A wager that parses to [NaN] is neither [<= 0] nor [> balance]:
    each of the three game endpoints accepts it (in the number game once
    the picked number passes its own check), and the balance it writes is
    [NaN]. *)
Theorem nan_wager_passes_validation e c s i user :
  find_user (State.users s) (call_username c) = Some (Some (i, user)) →
  parseFloat (call_wager c) = NaN →
  pick_rejected c = false →
  invalid_amount (parseFloat (call_wager c)) (User.balance user) = false
  ∧ Response.status (fst (play e c s)) = 200
  ∧ balance_at (snd (play e c s)) i = Some NaN.
Proof.
  intros Hfind Hnan Hpick.
  assert (invalid_amount (parseFloat (call_wager c)) (User.balance user) = false)
    as Hok by (rewrite Hnan; apply nan_amount_not_invalid).
  destruct (play_accepted e s i user c Hfind Hok Hpick) as [H200 Hbal].
  repeat split; [done..|].
  by rewrite Hbal, Hnan, sub_nan_r, add_nan_l.
Qed.

(** A wager that is no number, at each of the three endpoints: the text
    [abc] at blackjack, an absent field at plinko, [null] at the number
    game. *)
Lemma nan_wager_passes_validation_witness :
  let bj := PlayBlackjack (Blackjack.Make (VStr "bob") (VStr "abc") (VBool true) VUndefined VUndefined) in
  let pl := PlayPlinko (Plinko.Make (VStr "bob") VUndefined (VNum (Fin 5)) (VNum (Fin 2))) in
  let nb := PlayNumber (NumberGame.Make (VStr "bob") VNull (VNum (Fin 7))) in
  (Response.status (fst (play Sample.env bj Sample.bob50)) = 200
   ∧ balance_at (snd (play Sample.env bj Sample.bob50)) 0 = Some NaN)
  ∧ (Response.status (fst (play Sample.env pl Sample.bob50)) = 200
     ∧ balance_at (snd (play Sample.env pl Sample.bob50)) 0 = Some NaN)
  ∧ (Response.status (fst (play Sample.env nb Sample.bob50)) = 200
     ∧ balance_at (snd (play Sample.env nb Sample.bob50)) 0 = Some NaN).
Proof.
  intros bj pl nb.
  pose proof (nan_wager_passes_validation Sample.env) as H.
  split; [|split].
  - exact (proj2 (H bj Sample.bob50 0%nat (Sample.account "Bob" 50)
                    eq_refl eq_refl eq_refl)).
  - exact (proj2 (H pl Sample.bob50 0%nat (Sample.account "Bob" 50)
                    eq_refl eq_refl eq_refl)).
  - exact (proj2 (H nb Sample.bob50 0%nat (Sample.account "Bob" 50)
                    eq_refl eq_refl eq_refl)).
Defined.



(** The same wager under any draw: 410 when 7 comes up, 10 otherwise. *)
Lemma bob_number_scenario e :
  let rq := NumberGame.Make (VStr "Bob") (VNum (Fin 40)) (VNum (Fin 7)) in
  balance_at (snd (number_game e rq Sample.bob50)) 0
  = Some (if draw e =? 7 then Fin 410 else Fin 10).
Proof.
  intros rq.
  destruct (number_game_accepted e Sample.bob50 0%nat (Sample.account "Bob" 50)
              rq eq_refl eq_refl eq_refl) as (_ & (m & u & Hbody) & Hbal).
  rewrite Hbal. unfold payout_of. rewrite Hbody.
  change (parseInt (NumberGame.number rq)) with (Fin 7).
  change (parseFloat (NumberGame.wager rq)) with (Fin 40).
  unfold eqb. simpl cmp.
  destruct (Z.compare_spec (draw e) 7) as [->|H|H].
  - reflexivity.
  - destruct (draw e =? 7) eqn:E; [lia|reflexivity].
  - destruct (draw e =? 7) eqn:E; [lia|reflexivity].
Qed.

(** ** Claims about withdrawal *)



(** ** Payment ingestion *)

Section Ingestion.
Context (e : Env.t) (rq : ReportPayment.t) (s : State.t).



(** A falsy amount never gets past the guards. *)
Lemma report_payment_falsy_amount :
  truthy (ReportPayment.amount rq) = false →
  report_payment e rq s = (reply 401 (Error "Unauthorized"), s)
  ∨ report_payment e rq s = (reply 400 (Error "Missing from or amount"), s).
Proof.
  intros Hamount. unfold report_payment. rewrite Hamount, orb_true_r.
  destruct (unauthorized _ _); eauto.
Qed.

End Ingestion.

(** Whatever the outcome, the payments are those before the call, with
    at most the new record appended. *)
Lemma report_payment_payments e rq s :
  State.payments (snd (report_payment e rq s)) = State.payments s
  ∨ State.payments (snd (report_payment e rq s))
    = State.payments s ++ [new_payment e rq].
Proof.
  unfold report_payment. fold (new_payment e rq).
  destruct (unauthorized _ _); [by left|].
  destruct (negb _ || negb _); [by left|]. right.
  destruct (find_user _ _) as [[[j u]|]|]; [|destruct (trim_name _)|];
    cbn [fst snd]; rewrite ?payments_saveUsers;
    cbn [State.payments State.set_users]; by rewrite payments_savePayments.
Qed.

Lemma payer_index_lookup s name u :
  State.users s !! payer_index s name = Some u →
  list_find (same_name name) (State.users s) = Some (payer_index s name, u).
Proof.
  unfold payer_index.
  destruct (list_find (same_name name) (State.users s)) as [[i user]|] eqn:Hf.
  - apply list_find_Some in Hf as Hf'. destruct Hf' as [Hi _]. congruence.
  - intros H. apply lookup_lt_Some in H. lia.
Qed.



(** A payer that is not a string passes the presence check; the payment
    is recorded, then [from.toLowerCase()] throws and nobody is credited. *)
Example report_non_string_payer :
  let rq := ReportPayment.Make (Some "Bearer tok") (VNum (Fin 7)) (VNum (Fin 100)) in
  fst (report_payment Sample.env rq Sample.alice100) = uncaught
  ∧ length (State.payments (snd (report_payment Sample.env rq Sample.alice100)))
    = 1%nat
  ∧ State.users (snd (report_payment Sample.env rq Sample.alice100))
    = State.users Sample.alice100.
Proof. by vm_compute. Qed.

(** Ingestion is not idempotent: the same report twice gives two pending
    payments and two credits. *)
Example report_twice :
  let rq := Sample.report "Alice" (VNum (Fin 100)) in
  let s1 := snd (report_payment Sample.env rq Sample.empty) in
  let s2 := snd (report_payment Sample.env_later rq s1) in
  balance_at s1 0 = Some (Fin 100)
  ∧ balance_at s2 0 = Some (Fin 200)
  ∧ length (State.payments s2) = 2%nat.
Proof. by vm_compute. Qed.

(** C7 (as amended).  A payment-ingestion call whose amount is absent or
    falsy (undefined, null, false, 0, NaN, the empty string) is refused,
    with 400 or, the token being wrong, 401; no payment is created and no
    balance changes. *)
Theorem report_payment_rejects_falsy_amount e rq s :
  truthy (ReportPayment.amount rq) = false →
  (fst (report_payment e rq s) = reply 401 (Error "Unauthorized")
   ∨ fst (report_payment e rq s) = reply 400 (Error "Missing from or amount"))
  ∧ snd (report_payment e rq s) = s.
Proof.
  intros H.
  destruct (report_payment_falsy_amount e rq s H) as [-> | ->]; eauto.
Qed.

(** A report of 0 coins, and one whose amount is NaN. *)
Lemma report_payment_rejects_falsy_amount_witness :
  (fst (report_payment Sample.env (Sample.report "Alice" (VNum (Fin 0)))
          Sample.alice100)
   = reply 400 (Error "Missing from or amount")
   ∧ snd (report_payment Sample.env (Sample.report "Alice" (VNum (Fin 0)))
            Sample.alice100) = Sample.alice100)
  ∧ snd (report_payment Sample.env (Sample.report "Alice" (VNum NaN))
           Sample.alice100) = Sample.alice100.
Proof.
  split; [split; [reflexivity|]|].
  - exact (proj2 (report_payment_rejects_falsy_amount Sample.env
                    (Sample.report "Alice" (VNum (Fin 0))) Sample.alice100
                    eq_refl)).
  - exact (proj2 (report_payment_rejects_falsy_amount Sample.env
                    (Sample.report "Alice" (VNum NaN)) Sample.alice100
                    eq_refl)).
Defined.

(** C7 as stated fails: a report of -5 coins for Alice (100 coins) is
    answered with 200, a pending payment of -5 is recorded and her balance
    drops to 95. *)
Lemma negative_amount_counterexample :
  let rq := Sample.report "Alice" (VNum (Fin (-5))) in
  let r := fst (report_payment Sample.env rq Sample.alice100) in
  let s' := snd (report_payment Sample.env rq Sample.alice100) in
  parseFloat (ReportPayment.amount rq) = Fin (-5)
  ∧ ltb (Fin 0) (parseFloat (ReportPayment.amount rq)) = false
  ∧ Response.status r = 200
  ∧ State.payments s'
    = [Payment.Make "id-1" (VStr "Alice") (Fin (-5)) "2024-01-01T00:00:00.000Z"
         Payment.pending None None]
  ∧ balance_at Sample.alice100 0 = Some (Fin 100)
  ∧ balance_at s' 0 = Some (Fin 95).
Proof. by vm_compute. Qed.

(** ** Payment resolution *)

Section Resolution.
Context (e : Env.t) (paymentId : jsval) (s : State.t).

(** /api/pay on a payment it finds: the payments written, and the queue
    when commands.json loads as a list and the write goes through. *)
Lemma pay_found i payment :
  find_payment (State.payments s) paymentId = Some (i, payment) →
  let doubled := mul (Payment.amount payment) (Fin 2) in
  let s' := snd (pay e paymentId s) in
  State.payments s'
  = <[i := Payment.resolve doubled (Env.iso_now e) payment]> (State.payments s)
  ∧ State.users s' = State.users s
  ∧ ∀ cmds, queue s = Some cmds →
      Response.status (fst (pay e paymentId s)) = 200
      ∧ queue s'
        = if Env.commands_writable e
          then Some (cmds ++ [pay_command e (Payment.from payment) doubled
                                (Env.iso_now' e)])
          else Some cmds.
Proof.
  intros Hfind doubled s'. subst doubled s'. unfold pay, queue.
  rewrite Hfind, queue_savePayments, queue_set_payments.
  destruct (loadCommands s) as [cmds|] eqn:Hq; cbn [fst snd].
  - rewrite payments_saveCommands, users_saveCommands, queue_saveCommands.
    rewrite payments_savePayments, users_savePayments, queue_savePayments.
    rewrite queue_set_payments, Hq. split; [done|]. split; [done|].
    intros ? [= <-]. by destruct (Env.commands_writable e).
  - rewrite payments_savePayments, users_savePayments. by repeat split.
Qed.

Lemma pay_unknown :
  find_payment (State.payments s) paymentId = None →
  pay e paymentId s = (reply 404 (Error "Payment not found"), s).
Proof. intros H. unfold pay. by rewrite H. Qed.

Lemma lose_found i payment :
  find_payment (State.payments s) paymentId = Some (i, payment) →
  Response.status (fst (lose e paymentId s)) = 200
  ∧ State.payments (snd (lose e paymentId s)) = delete i (State.payments s).
Proof.
  intros H. unfold lose. rewrite H. cbn [fst snd].
  by rewrite payments_savePayments.
Qed.

Lemma lose_unknown :
  find_payment (State.payments s) paymentId = None →
  lose e paymentId s = (reply 404 (Error "Payment not found"), s).
Proof. intros H. unfold lose. by rewrite H. Qed.

End Resolution.

Lemma find_payment_found ps paymentId i payment :
  find_payment ps paymentId = Some (i, payment) →
  ps !! i = Some payment ∧ paymentId = VStr (Payment.id payment).
Proof.
  unfold find_payment. intros H.
  apply list_find_Some in H as (Hi & Hid & _). done.
Qed.

(** Once the one record of an identifier is removed, the identifier is
    unknown. *)
Lemma find_payment_deleted ps paymentId i payment :
  NoDup (Payment.id <$> ps) →
  find_payment ps paymentId = Some (i, payment) →
  find_payment (delete i ps) paymentId = None.
Proof.
  intros Hnd Hfind. apply find_payment_found in Hfind as [Hi Hid].
  unfold find_payment. apply list_find_None, Forall_forall.
  intros p Hp Hhas. unfold has_id in Hhas.
  apply list_elem_of_lookup in Hp as [j Hj].
  assert (∃ k, k ≠ i ∧ ps !! k = Some p) as (k & Hk & Hpk).
  { destruct (decide (j < i)%nat).
    - exists j. split; [lia|]. rewrite list_lookup_delete_lt in Hj; [done|lia].
    - exists (S j). split; [lia|]. rewrite list_lookup_delete_ge in Hj; [done|lia]. }
  apply Hk. eapply (NoDup_lookup _ _ _ (Payment.id p) Hnd).
  - by rewrite list_lookup_fmap, Hpk.
  - rewrite list_lookup_fmap, Hi. simpl. congruence.
Qed.



(** Paying an identifier nobody reported. *)
Example pay_unknown_id :
  pay Sample.env_later (VStr "id-9") Sample.alice_reported
  = (reply 404 (Error "Payment not found"), Sample.alice_reported).
Proof. reflexivity. Qed.

(** C6 (as amended).  A payment record never goes from paid back to
    pending: under ingestion, pay and deny, a record that is pending
    afterwards was there, pending, before, or is the one just ingested.
    Once deny has removed a record, whose identifier no other record
    bears, pay and deny on that identifier are answered with 404 and
    change nothing.  Pay does not look at the status: paying a record that
    is already paid succeeds again and queues one more payout command. *)
Theorem payment_resolution e op s :
  (∀ payment,
     payment ∈ State.payments (snd (run_op e op s)) →
     Payment.status payment = Payment.pending →
     payment ∈ State.payments s
     ∨ ∃ rq, op = Ingest rq ∧ payment = new_payment e rq)
  ∧ (∀ paymentId e',
       op = Deny paymentId →
       NoDup (Payment.id <$> State.payments s) →
       Response.status (fst (run_op e op s)) = 200 →
       let s' := snd (run_op e op s) in
       pay e' paymentId s' = (reply 404 (Error "Payment not found"), s')
       ∧ lose e' paymentId s' = (reply 404 (Error "Payment not found"), s'))
  ∧ (∀ paymentId i payment cmds,
       op = Pay paymentId →
       find_payment (State.payments s) paymentId = Some (i, payment) →
       Payment.status payment = Payment.paid →
       queue s = Some cmds →
       Env.commands_writable e = true →
       Response.status (fst (run_op e op s)) = 200
       ∧ queue (snd (run_op e op s))
         = Some (cmds ++ [pay_command e (Payment.from payment)
                            (mul (Payment.amount payment) (Fin 2))
                            (Env.iso_now' e)])).
Proof.
  split; [|split].
  - intros payment Hin Hpending.
    destruct op as [rq|paymentId|paymentId]; cbn [run_op] in Hin.
    + destruct (report_payment_payments e rq s) as [H|H]; rewrite H in Hin.
      * by left.
      * apply elem_of_app in Hin as [Hin|Hin]; [by left|].
        apply list_elem_of_singleton in Hin. right. eauto.
    + left. destruct (find_payment (State.payments s) paymentId)
        as [[i p]|] eqn:Hfind.
      * destruct (pay_found e paymentId s i p Hfind) as (Hp & _).
        rewrite Hp in Hin. apply list_elem_of_lookup in Hin as [j Hj].
        destruct (decide (i = j)) as [<-|Hne].
        -- apply list_lookup_insert_Some in Hj as [(_ & <- & _)|[? _]]; done.
        -- rewrite list_lookup_insert_ne in Hj by done.
           apply list_elem_of_lookup. eauto.
      * by rewrite (pay_unknown e paymentId s Hfind) in Hin.
    + left. destruct (find_payment (State.payments s) paymentId)
        as [[i p]|] eqn:Hfind.
      * destruct (lose_found e paymentId s i p Hfind) as (_ & Hp).
        rewrite Hp in Hin. by eapply list_elem_of_delete_inv.
      * by rewrite (lose_unknown e paymentId s Hfind) in Hin.
  - intros paymentId e' -> Hnd H200 s'. subst s'. cbn [run_op] in *.
    destruct (find_payment (State.payments s) paymentId) as [[i p]|] eqn:Hfind.
    + destruct (lose_found e paymentId s i p Hfind) as (_ & Hp).
      pose proof (find_payment_deleted _ _ _ _ Hnd Hfind) as Hgone.
      rewrite <- Hp in Hgone.
      by rewrite (pay_unknown e' _ _ Hgone), (lose_unknown e' _ _ Hgone).
    + by rewrite (lose_unknown e paymentId s Hfind) in H200.
  - intros paymentId i payment cmds -> Hfind _ Hq Hw. cbn [run_op].
    destruct (pay_found e paymentId s i payment Hfind) as (_ & _ & Hc).
    destruct (Hc cmds Hq) as [H200 Hq']. by rewrite Hw in Hq'.
Qed.

(** Alice's payment, already paid out, is paid a second time. *)
Lemma payment_resolution_witness :
  let s := Sample.alice_paid in
  let s' := snd (run_op Sample.env_last (Pay (VStr "id-1")) s) in
  Payment.status <$> State.payments s !! 0%nat = Some Payment.paid
  ∧ Response.status (fst (run_op Sample.env_last (Pay (VStr "id-1")) s)) = 200
  ∧ queue s'
    = Some ([pay_command Sample.env_later (VStr "Alice") (Fin 200)
               "2024-01-01T00:01:00.001Z"]
              ++ [pay_command Sample.env_last (VStr "Alice")
                    (mul (Fin 100) (Fin 2)) "2024-01-01T00:02:00.001Z"]).
Proof.
  intros s s'. split; [reflexivity|].
  exact (proj2 (proj2 (payment_resolution Sample.env_last (Pay (VStr "id-1")) s))
           (VStr "id-1") 0%nat
           (Payment.resolve (Fin 200) "2024-01-01T00:01:00.000Z"
              (new_payment Sample.env (Sample.report "Alice" (VNum (Fin 100)))))
           [pay_command Sample.env_later (VStr "Alice") (Fin 200)
              "2024-01-01T00:01:00.001Z"]
           eq_refl eq_refl eq_refl eq_refl eq_refl).
Defined.

(** C6 as stated fails: Alice's payment of 100 is paid out, which queues
    [/pay Alice 200]; the same identifier is paid out again, the call is
    answered with 200 and a second [/pay Alice 200] is queued. *)
Lemma second_pay_counterexample :
  let s1 := Sample.alice_paid in
  let r := fst (pay Sample.env_last (VStr "id-1") s1) in
  let s2 := snd (pay Sample.env_last (VStr "id-1") s1) in
  Payment.status <$> State.payments s1 = [Payment.paid]
  ∧ (λ c, (Command.command c, Command.status c)) <$> default [] (queue s1)
    = [("/pay Alice 200", Command.pending)]
  ∧ Response.status r = 200
  ∧ Payment.status <$> State.payments s2 = [Payment.paid]
  ∧ (λ c, (Command.command c, Command.status c)) <$> default [] (queue s2)
    = [("/pay Alice 200", Command.pending); ("/pay Alice 200", Command.pending)].
Proof. by vm_compute. Qed.

(** Deny removes the record; the identifier is then unknown. *)
Example deny_then_pay :
  let s1 := snd (lose Sample.env_later (VStr "id-1") Sample.alice_reported) in
  State.payments s1 = []
  ∧ pay Sample.env_last (VStr "id-1") s1
    = (reply 404 (Error "Payment not found"), s1).
Proof. by vm_compute. Qed.

(** ** Withdrawal and the refund *)

Section Withdrawal.
Context (e : Env.t) (rq : Withdraw.t) (s : State.t) (i : nat) (user : User.t).
Hypothesis Hfind :
  find_user (State.users s) (Withdraw.username rq) = Some (Some (i, user)).
Hypothesis Hvalid :
  invalid_amount (parseFloat (Withdraw.amount rq)) (User.balance user) = false.

(** The queue can be read: the debit stays, whether or not the write of
    the new queue goes through. *)
Lemma withdraw_queue_loaded cmds :
  queue s = Some cmds →
  let w := parseFloat (Withdraw.amount rq) in
  Response.status (fst (withdraw e rq s)) = 200
  ∧ balance_at (snd (withdraw e rq s)) i = Some (sub (User.balance user) w)
  ∧ queue (snd (withdraw e rq s))
    = if Env.commands_writable e
      then Some (cmds ++ [pay_command e (Withdraw.username rq) w (Env.iso_now e)])
      else Some cmds.
Proof.
  intros Hq w. subst w. apply find_user_found in Hfind as Hi. destruct Hi as [Hi _].
  unfold withdraw, queue in *. rewrite Hfind, Hvalid, queue_saveUsers.
  rewrite queue_set_users, Hq. cbn [fst snd]. split; [done|]. split.
  - unfold balance_at. rewrite users_saveCommands, users_saveUsers.
    cbn [State.users State.set_users].
    rewrite list_lookup_insert_eq; [done|]. by eapply lookup_lt_Some.
  - rewrite queue_saveCommands, queue_saveUsers, queue_set_users, Hq.
    by destruct (Env.commands_writable e).
Qed.

(** Pushing onto what commands.json holds throws: the catch block credits
    the amount back and answers 500. *)
Lemma withdraw_queue_throws :
  queue s = None →
  let w := parseFloat (Withdraw.amount rq) in
  fst (withdraw e rq s) = reply 500 (Error "Failed to queue withdrawal")
  ∧ balance_at (snd (withdraw e rq s)) i
    = Some (add (sub (User.balance user) w) w)
  ∧ queue (snd (withdraw e rq s)) = None.
Proof.
  intros Hq w. subst w. apply find_user_found in Hfind as Hi. destruct Hi as [Hi _].
  unfold withdraw, queue in *. rewrite Hfind, Hvalid, queue_saveUsers.
  rewrite queue_set_users, Hq. cbn [fst snd]. split; [done|]. split.
  - unfold balance_at. rewrite !users_saveUsers. cbn [State.users State.set_users].
    rewrite list_lookup_insert_eq; [done|].
    rewrite length_insert. by eapply lookup_lt_Some.
  - by repeat (rewrite queue_saveUsers || rewrite queue_set_users).
Qed.

End Withdrawal.

(** When the catch block runs on whole-coin amounts, the balance is the
    one before the call. *)
Lemma withdraw_refund_restores e rq s i user b a :
  find_user (State.users s) (Withdraw.username rq) = Some (Some (i, user)) →
  User.balance user = Fin b →
  parseFloat (Withdraw.amount rq) = Fin a →
  0 < a ≤ b →
  queue s = None →
  fst (withdraw e rq s) = reply 500 (Error "Failed to queue withdrawal")
  ∧ balance_at (snd (withdraw e rq s)) i = Some (Fin b).
Proof.
  intros Hfind Hb Ha Hrange Hq.
  assert (invalid_amount (parseFloat (Withdraw.amount rq)) (User.balance user)
          = false) as Hvalid.
  { rewrite Hb, Ha. apply valid_amount; [apply gtb_fin|apply leb_fin]; lia. }
  destruct (withdraw_queue_throws e rq s i user Hfind Hvalid Hq) as (Hr & Hbal & _).
  split; [done|]. by rewrite Hbal, Hb, Ha, sub_add_cancel.
Qed.

(** An amount that is no number passes the guard as well; the refund then
    adds [NaN] to a balance that the debit had already made [NaN]. *)
Example withdraw_refund_nan :
  let rq := Withdraw.Make (VStr "Bob") (VStr "abc") in
  fst (withdraw Sample.env rq Sample.bob50_queue_corrupt)
  = reply 500 (Error "Failed to queue withdrawal")
  ∧ balance_at Sample.bob50_queue_corrupt 0 = Some (Fin 50)
  ∧ balance_at (snd (withdraw Sample.env rq Sample.bob50_queue_corrupt)) 0
    = Some NaN.
Proof. by vm_compute. Qed.

(** C4 (the code where the claim fails).  A withdrawal that has debited
    the balance and whose write of commands.json then fails: [saveCommands]
    swallows the error, so the handler's catch block and its refund never
    run; the call is answered with 200, the balance stays debited and the
    queue holds no payout command. *)
Theorem withdraw_lost_enqueue_keeps_debit e rq s i user cmds :
  find_user (State.users s) (Withdraw.username rq) = Some (Some (i, user)) →
  invalid_amount (parseFloat (Withdraw.amount rq)) (User.balance user) = false →
  queue s = Some cmds →
  Env.commands_writable e = false →
  Response.status (fst (withdraw e rq s)) = 200
  ∧ balance_at (snd (withdraw e rq s)) i
    = Some (sub (User.balance user) (parseFloat (Withdraw.amount rq)))
  ∧ queue (snd (withdraw e rq s)) = Some cmds.
Proof.
  intros Hfind Hvalid Hq Hw.
  destruct (withdraw_queue_loaded e rq s i user Hfind Hvalid cmds Hq)
    as (H200 & Hbal & Hq').
  by rewrite Hw in Hq'.
Qed.

(** Bob holds 50 and withdraws 40 while commands.json cannot be written:
    success is reported, 10 coins remain, the queue is empty. *)
Lemma withdraw_lost_enqueue_keeps_debit_witness :
  let rq := Withdraw.Make (VStr "Bob") (VNum (Fin 40)) in
  let s' := snd (withdraw Sample.env_queue_readonly rq Sample.bob50) in
  Response.status (fst (withdraw Sample.env_queue_readonly rq Sample.bob50)) = 200
  ∧ balance_at s' 0 = Some (Fin 10)
  ∧ queue s' = Some [].
Proof.
  intros rq s'.
  exact (withdraw_lost_enqueue_keeps_debit Sample.env_queue_readonly rq
           Sample.bob50 0%nat (Sample.account "Bob" 50) []
           eq_refl eq_refl eq_refl eq_refl).
Defined.

(** ** Linking codes *)

Lemma upper_idempotent c : upper (upper c) = upper c.
Proof. destruct c as [[] [] [] [] [] [] [] []]; reflexivity. Qed.

Lemma toUpperCase_idempotent t : toUpperCase (toUpperCase t) = toUpperCase t.
Proof.
  unfold toUpperCase. rewrite list_ascii_of_string_of_list_ascii, List.map_map.
  f_equal. apply List.map_ext. intros c. apply upper_idempotent.
Qed.

(** No upper-cased text is a property name of [Object.prototype]: the
    codes the callback issues are looked up among the stored ones only. *)
Lemma toUpperCase_not_inherited t : toUpperCase t ∉ inherited_names.
Proof.
  intros Hin. pose proof (toUpperCase_idempotent t) as Hidem.
  set (n := toUpperCase t) in *. clearbody n. unfold inherited_names in Hin.
  repeat (apply elem_of_cons in Hin as [-> | Hin]; [by vm_compute in Hidem|]).
  by apply elem_of_nil in Hin.
Qed.

(** The callback stores the identity under the code, stamped with the
    time of issue. *)
Lemma discord_callback_issues e discordId discordTag s code :
  fst (discord_callback e discordId discordTag s) = Some code →
  (code ∉ inherited_names)
  ∧ State.pendingLinks (snd (discord_callback e discordId discordTag s)) !! code
    = Some (Link.Make discordId discordTag (Fin (Env.now_ms e))).
Proof.
  unfold discord_callback. destruct (list_find _ _); [done|].
  cbn [fst snd]. intros [= <-]. split; [apply toUpperCase_not_inherited|].
  rewrite links_savePendingLinks. cbn [State.pendingLinks State.set_pendingLinks].
  apply lookup_insert_eq.
Qed.

Section Linking.
Context (e : Env.t) (rq : LinkAccount.t) (s : State.t).

Hypothesis Husername : truthy (LinkAccount.username rq) = true.
Hypothesis Hcode : truthy (LinkAccount.linkingCode rq) = true.

(** A code that is not stored (and is no inherited name) is refused. *)
Lemma link_account_unknown :
  State.pendingLinks s !! (to_string (LinkAccount.linkingCode rq)) = None →
  (to_string (LinkAccount.linkingCode rq)) ∉ inherited_names →
  link_account e rq s = (reply 400 (Error "Invalid or expired linking code"), s).
Proof.
  intros Hnone Hown. unfold link_account, get_link.
  rewrite Husername, Hcode, Hnone. cbn [negb orb].
  by rewrite bool_decide_eq_false_2.
Qed.

(** A stored code older than the expiry is refused and deleted. *)
Lemma link_account_expired link :
  State.pendingLinks s !! (to_string (LinkAccount.linkingCode rq)) = Some link →
  gtb (sub (Fin (Env.now_ms e)) (Link.timestamp link)) (Fin expiry_ms) = true →
  fst (link_account e rq s) = reply 400 (Error "Linking code expired")
  ∧ State.pendingLinks (snd (link_account e rq s))
    = delete (to_string (LinkAccount.linkingCode rq)) (State.pendingLinks s)
  ∧ State.users (snd (link_account e rq s)) = State.users s.
Proof.
  intros Hlink Hold. unfold link_account, get_link.
  rewrite Husername, Hcode, Hlink. cbn [negb orb link_timestamp].
  rewrite Hold. cbn [fst snd].
  by rewrite links_savePendingLinks, users_savePendingLinks.
Qed.

(** A call answered with 200 has deleted the code it was given. *)
Lemma link_account_consumes :
  Response.status (fst (link_account e rq s)) = 200 →
  State.pendingLinks (snd (link_account e rq s)) !! (to_string (LinkAccount.linkingCode rq)) = None.
Proof.
  unfold link_account. rewrite Husername, Hcode. cbn [negb orb].
  destruct (get_link _ _); [| |done];
    (destruct (gtb _ _); [done|];
     destruct (find_user _ _) as [[[j u]|]|]; [|destruct (trim_name _)|];
     cbn [fst snd mbind option_bind]; try done; intros _;
     rewrite links_savePendingLinks;
     cbn [State.pendingLinks State.set_pendingLinks];
     apply lookup_delete_eq).
Qed.

End Linking.

(** C9.  A linking code is used once and lapses after 24 hours.  Once a
    link-account call has succeeded with a code, the code is gone from the
    pending links and any further call with it is refused as an invalid
    code, the state staying as it is.  A call with a stored code issued
    more than 24 hours earlier is refused as expired, and the code is
    removed from the pending links without any account being touched. *)
Theorem linking_code_single_use_and_expiry e rq s :
  let key := to_string (LinkAccount.linkingCode rq) in
  truthy (LinkAccount.username rq) = true →
  truthy (LinkAccount.linkingCode rq) = true →
  key ∉ inherited_names →
  let s' := snd (link_account e rq s) in
  (Response.status (fst (link_account e rq s)) = 200 →
   State.pendingLinks s' !! key = None
   ∧ ∀ e' rq',
       LinkAccount.linkingCode rq' = LinkAccount.linkingCode rq →
       truthy (LinkAccount.username rq') = true →
       link_account e' rq' s'
       = (reply 400 (Error "Invalid or expired linking code"), s'))
  ∧ (∀ link issued,
       State.pendingLinks s !! key = Some link →
       Link.timestamp link = Fin issued →
       Env.now_ms e - issued > expiry_ms →
       fst (link_account e rq s) = reply 400 (Error "Linking code expired")
       ∧ State.pendingLinks s' = delete key (State.pendingLinks s)
       ∧ State.pendingLinks s' !! key = None
       ∧ State.users s' = State.users s).
Proof.
  intros key Husername Hcode Hown s'. split.
  - intros H200.
    pose proof (link_account_consumes e rq s Husername Hcode H200) as Hgone.
    split; [done|]. intros e' rq' Hsame Husername'.
    apply link_account_unknown; rewrite ?Hsame; done.
  - intros link issued Hlink Hstamp Hold.
    destruct (link_account_expired e rq s Husername Hcode link Hlink)
      as (Hr & Hlinks & Husers).
    { rewrite Hstamp, sub_fin. apply gtb_fin. lia. }
    subst s'. rewrite Hlinks. repeat split; try done. apply lookup_delete_eq.
Qed.

(** The code 4FZYO8 issued to Bob's Discord identity: linking succeeds one
    minute later and a second attempt is refused; presented 25 hours after
    issue instead, the code is refused as expired and removed. *)
Lemma linking_code_single_use_and_expiry_witness :
  let rq := LinkAccount.Make (VStr "Bob") (VStr "4FZYO8") in
  let s := Sample.bob_code_issued in
  let s' := snd (link_account Sample.env_later rq s) in
  (Response.status (fst (link_account Sample.env_later rq s)) = 200
   ∧ link_account Sample.env_last rq s'
     = (reply 400 (Error "Invalid or expired linking code"), s'))
  ∧ (fst (link_account Sample.env_next_day rq s)
     = reply 400 (Error "Linking code expired")
     ∧ State.pendingLinks (snd (link_account Sample.env_next_day rq s)) !! "4FZYO8"
       = None).
Proof.
  intros rq s s'.
  assert ("4FZYO8" ∉ inherited_names) as Hown
    by apply (toUpperCase_not_inherited "4fzyo8").
  split.
  - split; [reflexivity|].
    exact (proj2 (proj1 (linking_code_single_use_and_expiry Sample.env_later
                           rq s eq_refl eq_refl Hown) eq_refl)
             Sample.env_last rq eq_refl eq_refl).
  - destruct (proj2 (linking_code_single_use_and_expiry Sample.env_next_day
                       rq s eq_refl eq_refl Hown)
                (Link.Make "discord-1" "bob#0001" (Fin 1704067200000))
                1704067200000 eq_refl eq_refl eq_refl) as (Hr & _ & Hgone & _).
    exact (conj Hr Hgone).
Defined.

(** A code is still good exactly 24 hours after issue. *)
Example link_at_24_hours :
  let e := Env.Make "id-9" "id-10" "2024-01-02T00:00:00.000Z"
             "2024-01-02T00:00:00.001Z" (1704067200000 + expiry_ms) 0 "0.1"
             None true true true true in
  Response.status
    (fst (link_account e (LinkAccount.Make (VStr "Bob") (VStr "4FZYO8"))
            Sample.bob_code_issued)) = 200.
Proof. reflexivity. Qed.

(** An inherited property name is no stored code, yet it is accepted each
    time it is presented. *)
Example link_with_inherited_name :
  let rq := LinkAccount.Make (VStr "Bob") (VStr "toString") in
  let s' := snd (link_account Sample.env rq Sample.bob50) in
  Response.status (fst (link_account Sample.env rq Sample.bob50)) = 200
  ∧ Response.status (fst (link_account Sample.env_later rq s')) = 200.
Proof. by vm_compute. Qed.

(** * Beyond the claims: the other routes, the bot's drain, the backups *)

(** ** Lookups under updates *)

(** Replacing the account a lookup finds by one the lookup also accepts
    leaves the lookup at that account. *)
Lemma list_find_insert_same {A} (P : A → Prop) `{∀ x, Decision (P x)}
    (l : list A) i x x' :
  list_find P l = Some (i, x) → P x' →
  list_find P (<[i := x']> l) = Some (i, x').
Proof.
  intros Hf Hx'. apply list_find_Some in Hf as (Hi & _ & Hlt).
  apply list_find_Some. split; [|split; [done|]].
  - rewrite list_lookup_insert_eq; [done|]. by eapply lookup_lt_Some.
  - intros j y Hj Hji. rewrite list_lookup_insert_ne in Hj by lia. eauto.
Qed.

(** A lookup by a string never throws. *)
Lemma find_user_string us name :
  find_user us (VStr name) = Some (list_find (same_name name) us).
Proof. by destruct us. Qed.

Lemma find_user_insert us name i u u' :
  find_user us name = Some (Some (i, u)) →
  User.username u' = User.username u →
  find_user (<[i := u']> us) name = Some (Some (i, u')).
Proof.
  intros Hfind Hname.
  destruct (find_user_found us name i u Hfind) as (Hi & n & -> & Hn).
  rewrite find_user_string in *. f_equal.
  apply (list_find_insert_same _ _ _ u); [congruence|].
  unfold same_name in *. congruence.
Qed.

(** ** White space and letter case *)






(** ** Deposits *)












(** ** The token check *)

Lemma list_ascii_app t1 t2 :
  list_ascii_of_string (t1 ++ t2)%string
  = list_ascii_of_string t1 ++ list_ascii_of_string t2.
Proof. induction t1 as [|c t1 IH]; simpl; [done|]. by rewrite IH. Qed.

(** Splitting at [sep] a text whose first field is [a]. *)
Lemma split_on_field sep a b cur :
  sep ∉ a →
  split_on sep (a ++ sep :: b) cur
  = string_of_list_ascii (rev cur ++ a) :: split_on sep b [].
Proof.
  revert cur. induction a as [|c a IH]; intros cur Hsep; simpl.
  - by rewrite Ascii.eqb_refl, app_nil_r.
  - apply not_elem_of_cons in Hsep as [Hc Ha].
    destruct (Ascii.eqb_spec c sep) as [->|_]; [done|].
    rewrite IH by done. simpl. by rewrite <- app_assoc.
Qed.

Lemma split_on_last sep a cur :
  sep ∉ a → split_on sep a cur = [string_of_list_ascii (rev cur ++ a)].
Proof.
  revert cur. induction a as [|c a IH]; intros cur Hsep; simpl.
  - by rewrite app_nil_r.
  - apply not_elem_of_cons in Hsep as [Hc Ha].
    destruct (Ascii.eqb_spec c sep) as [->|_]; [done|].
    rewrite IH by done. simpl. by rewrite <- app_assoc.
Qed.

(** No field of a split contains the separator. *)
Lemma not_elem_of_rev {A} (x : A) l : x ∉ l → x ∉ rev l.
Proof.
  intros Hx Hin. apply Hx. apply list_elem_of_In, in_rev. by apply list_elem_of_In.
Qed.

Lemma split_on_fields sep l cur t :
  sep ∉ cur → t ∈ split_on sep l cur → sep ∉ list_ascii_of_string t.
Proof.
  revert cur. induction l as [|c l IH]; intros cur Hcur; simpl.
  - intros ->%list_elem_of_singleton.
    rewrite list_ascii_of_string_of_list_ascii. by apply not_elem_of_rev.
  - destruct (Ascii.eqb_spec c sep) as [->|Hne].
    + intros [->|Hin]%elem_of_cons.
      * rewrite list_ascii_of_string_of_list_ascii. by apply not_elem_of_rev.
      * apply (IH []); [apply not_elem_of_nil|done].
    + apply IH. by apply not_elem_of_cons.
Qed.

(** X7.  Who passes the token check of the protected routes.  With the
    secret not configured nobody does; nor with a secret that is empty or
    contains a space, since the token is the second space-separated field
    of the header.  With any other secret, a header made of one word, a
    space and the secret passes, whatever the word. *)
Theorem token_check secret :
  (∀ header, unauthorized (bearer header) None = true)
  ∧ (∀ header,
       secret = "" ∨ " "%char ∈ list_ascii_of_string secret →
       unauthorized (bearer header) (Some secret) = true)
  ∧ (∀ scheme,
       secret ≠ "" →
       " "%char ∉ list_ascii_of_string secret →
       " "%char ∉ list_ascii_of_string scheme →
       unauthorized (bearer (Some (scheme ++ " " ++ secret)%string)) (Some secret)
       = false).
Proof.
  split; [|split].
  - intros header. unfold unauthorized. destruct (bearer header) as [t|]; [|done].
    by rewrite bool_decide_eq_false_2, orb_true_r.
  - intros header Hbad. unfold unauthorized.
    destruct (bearer header) as [t|] eqn:Hb; [|done].
    destruct (String.eqb_spec t "") as [->|Hne]; [done|]. simpl.
    rewrite bool_decide_eq_false_2; [done|]. intros [= ->].
    destruct Hbad as [->|Hspace]; [done|].
    unfold bearer in Hb. destruct header as [h|]; [|done]. simpl in Hb.
    apply list_elem_of_lookup_2 in Hb.
    by apply (split_on_fields _ _ _ _ (not_elem_of_nil _)) in Hb.
  - intros scheme Hne Hsecret Hscheme. unfold unauthorized, bearer. simpl.
    rewrite !list_ascii_app. simpl.
    rewrite split_on_field, split_on_last by done. simpl.
    rewrite string_of_list_ascii_of_string.
    rewrite bool_decide_eq_true_2 by done.
    by destruct (String.eqb_spec secret "").
Qed.

(** The secret [s3cret]: [Bearer s3cret] and [Basic s3cret] pass alike. *)
Lemma token_check_witness :
  unauthorized (bearer (Some "Bearer s3cret")) (Some "s3cret") = false
  ∧ unauthorized (bearer (Some "Basic s3cret")) (Some "s3cret") = false
  ∧ unauthorized (bearer (Some "Bearer my secret")) (Some "my secret") = true.
Proof.
  assert ("s3cret" ≠ "") as Hne by done.
  assert (" "%char ∉ list_ascii_of_string "s3cret") as Hs by compute_done.
  split; [|split].
  - apply (proj2 (proj2 (token_check "s3cret")) "Bearer" Hne Hs).
    compute_done.
  - apply (proj2 (proj2 (token_check "s3cret")) "Basic" Hne Hs).
    compute_done.
  - apply (proj1 (proj2 (token_check "my secret"))). right.
    compute_done.
Defined.

(** ** The administrator's routes *)

Section Admin.
Context (AUTH_TOKEN : option string) (e : Env.t) (s : State.t).

(** set-balance on an account it finds. *)
Lemma admin_set_balance_found rq name v i user :
  unauthorized (bearer (SetBalance.authorization rq)) AUTH_TOKEN = false →
  SetBalance.username rq = VStr name →
  SetBalance.balance rq = VNum v →
  list_find (same_name name) (State.users s) = Some (i, user) →
  let user' :=
    User.push_history
      (EvAdminSetBalance (User.balance user) v (Env.iso_now e))
      (User.set_balance v user) in
  fst (admin_set_balance AUTH_TOKEN e rq s) = answer 200 (Updated user')
  ∧ State.users (snd (admin_set_balance AUTH_TOKEN e rq s))
    = <[i := user']> (State.users s)
  ∧ State.payments (snd (admin_set_balance AUTH_TOKEN e rq s))
    = State.payments s
  ∧ queue (snd (admin_set_balance AUTH_TOKEN e rq s)) = queue s.
Proof.
  intros Hauth Hname Hv Hf user'. subst user'.
  unfold admin_set_balance, queue. rewrite Hauth, Hname, Hv, Hf. cbn [fst snd].
  by rewrite users_saveUsers, payments_saveUsers, queue_saveUsers.
Qed.


End Admin.

(** X5.  For an authorized caller and a user name given as a string,
    set-balance with a JSON number as balance makes that number the
    balance of the first account of that name, whatever it was before,
    appends exactly one audit entry holding the previous and the new
    balance to its history, and touches nothing else; with a balance that
    is not a JSON number (a string, say) the call is refused with 400 and
    the state is left as it was. *)
Theorem set_balance_audited AUTH_TOKEN e rq s name :
  unauthorized (bearer (SetBalance.authorization rq)) AUTH_TOKEN = false →
  SetBalance.username rq = VStr name →
  let r := fst (admin_set_balance AUTH_TOKEN e rq s) in
  let s' := snd (admin_set_balance AUTH_TOKEN e rq s) in
  (∀ v i user,
     SetBalance.balance rq = VNum v →
     list_find (same_name name) (State.users s) = Some (i, user) →
     Answer.status r = 200
     ∧ (∃ user',
          State.users s' !! i = Some user'
          ∧ User.balance user' = v
          ∧ User.gameHistory user'
            = User.gameHistory user
                ++ [EvAdminSetBalance (User.balance user) v (Env.iso_now e)]
          ∧ User.username user' = User.username user
          ∧ User.totalWagered user' = User.totalWagered user
          ∧ User.totalWon user' = User.totalWon user
          ∧ User.totalLost user' = User.totalLost user)
     ∧ (∀ j, j ≠ i → State.users s' !! j = State.users s !! j)
     ∧ State.payments s' = State.payments s
     ∧ queue s' = queue s)
  ∧ ((∀ v, SetBalance.balance rq ≠ VNum v) →
     r = answer 400 (Refused "Invalid parameters") ∧ s' = s).
Proof.
  intros Hauth Hname r s'. subst r s'. split.
  - intros v i user Hv Hf.
    destruct (admin_set_balance_found AUTH_TOKEN e s rq name v i user
                Hauth Hname Hv Hf) as (Hr & Husers & Hpay & Hq).
    rewrite Hr, Husers. apply list_find_Some in Hf as (Hi & _).
    split; [done|]. split.
    + eexists. rewrite list_lookup_insert_eq by (by eapply lookup_lt_Some).
      by repeat split.
    + split; [|done]. intros j Hj. by rewrite list_lookup_insert_ne.
  - intros Hnot. unfold admin_set_balance. rewrite Hauth, Hname.
    destruct (SetBalance.balance rq) as [| |b|v|t]; try done.
    by destruct (Hnot v).
Qed.

(** Bob's balance of 50 is set to 500; then ["500"], a string, is tried. *)
Lemma set_balance_audited_witness :
  let rq := SetBalance.Make (Some "Bearer s3cret") (VStr "bob") (VNum (Fin 500)) in
  let bad := SetBalance.Make (Some "Bearer s3cret") (VStr "bob") (VStr "500") in
  let s' := snd (admin_set_balance Scene.admin_token Sample.env rq Sample.bob50) in
  (∃ user',
     State.users s' !! 0%nat = Some user'
     ∧ User.balance user' = Fin 500
     ∧ User.gameHistory user'
       = [] ++ [EvAdminSetBalance (Fin 50) (Fin 500) (Env.iso_now Sample.env)]
     ∧ User.username user' = "Bob"
     ∧ User.totalWagered user' = Fin 0
     ∧ User.totalWon user' = Fin 0
     ∧ User.totalLost user' = Fin 0)
  ∧ snd (admin_set_balance Scene.admin_token Sample.env bad Sample.bob50)
    = Sample.bob50.
Proof.
  intros rq bad s'. split.
  - exact (proj1 (proj2 (proj1
      (set_balance_audited Scene.admin_token Sample.env rq Sample.bob50 "bob"
         eq_refl eq_refl)
      (Fin 500) 0%nat (Sample.account "Bob" 50) eq_refl eq_refl))).
  - refine (proj2 (proj2
      (set_balance_audited Scene.admin_token Sample.env bad Sample.bob50 "bob"
         eq_refl eq_refl) _)).
    intros v. discriminate.
Defined.



(** X8.  An authorized clear-all empties the payments and nothing else:
    the accounts keep the balances the payments had credited and the queue
    keeps its commands; every payment identifier is unknown to pay and
    deny afterwards.  An unauthorized call changes nothing. *)
Theorem clear_all_forgets AUTH_TOKEN e authorization s :
  let r := fst (clear_all AUTH_TOKEN e authorization s) in
  let s' := snd (clear_all AUTH_TOKEN e authorization s) in
  (unauthorized (bearer authorization) AUTH_TOKEN = false →
   Answer.status r = 200
   ∧ State.payments s' = []
   ∧ State.users s' = State.users s
   ∧ queue s' = queue s
   ∧ ∀ e' paymentId,
       pay e' paymentId s' = (reply 404 (Error "Payment not found"), s')
       ∧ lose e' paymentId s' = (reply 404 (Error "Payment not found"), s'))
  ∧ (unauthorized (bearer authorization) AUTH_TOKEN = true →
     r = answer 401 (Refused "Unauthorized") ∧ s' = s).
Proof.
  intros r s'. subst r s'. unfold clear_all, queue. split; intros ->; [|done].
  cbn [fst snd].
  rewrite payments_savePayments, users_savePayments, queue_savePayments.
  repeat split.
  - apply pay_unknown. by rewrite payments_savePayments.
  - apply lose_unknown. by rewrite payments_savePayments.
Qed.

(** Alice's reported payment is cleared; she keeps her 100 coins and the
    payment can no longer be paid out. *)
Lemma clear_all_forgets_witness :
  let s' := snd (clear_all Scene.admin_token Sample.env_later
                   (Some "Bearer s3cret") Sample.alice_reported) in
  length (State.payments Sample.alice_reported) = 1%nat
  ∧ State.payments s' = []
  ∧ balance_at s' 0 = Some (Fin 100)
  ∧ pay Sample.env_last (VStr "id-1") s'
    = (reply 404 (Error "Payment not found"), s').
Proof.
  intros s'.
  destruct (proj1 (clear_all_forgets Scene.admin_token Sample.env_later
                     (Some "Bearer s3cret") Sample.alice_reported) eq_refl)
    as (_ & Hp & _ & _ & Hunknown).
  split; [reflexivity|]. split; [exact Hp|]. split; [reflexivity|].
  exact (proj1 (Hunknown Sample.env_last (VStr "id-1"))).
Defined.

(** ** Linking, unlinking and logging in *)

(** /api/link-account with a stored code that has not lapsed, for a user
    named by a non-empty string. *)
Lemma link_account_stored e rq s name link :
  LinkAccount.username rq = VStr name →
  name ≠ "" →
  truthy (LinkAccount.linkingCode rq) = true →
  State.pendingLinks s !! to_string (LinkAccount.linkingCode rq) = Some link →
  gtb (sub (Fin (Env.now_ms e)) (Link.timestamp link)) (Fin expiry_ms) = false →
  let s' := snd (link_account e rq s) in
  Response.status (fst (link_account e rq s)) = 200
  ∧ State.users s'
    = match list_find (same_name name) (State.users s) with
      | Some (i, user) =>
          <[i := User.set_discord (Some (Link.discordId link))
                   (Some (Link.discordTag link)) user]> (State.users s)
      | None =>
          State.users s
            ++ [User.fresh (Env.uuid e) (trim name) (Some (Link.discordId link))
                  (Some (Link.discordTag link)) (Env.iso_now e)]
      end
  ∧ State.pendingLinks s'
    = delete (to_string (LinkAccount.linkingCode rq)) (State.pendingLinks s)
  ∧ State.payments s' = State.payments s.
Proof.
  intros Hname Hne Hcode Hlink Hfresh s'. subst s'.
  unfold link_account, get_link. rewrite Hname, Hcode, Hlink, find_user_string.
  assert (truthy (VStr name) = true) as ->.
  { simpl. by apply negb_true_iff, String.eqb_neq. }
  cbn [negb orb link_timestamp]. rewrite Hfresh.
  destruct (list_find (same_name name) (State.users s)) as [[i user]|];
    cbn [trim_name mbind option_bind fst snd link_discordId link_discordTag
         Response.status reply];
    rewrite users_savePendingLinks, links_savePendingLinks;
    cbn [State.users State.pendingLinks State.payments State.set_pendingLinks];
    rewrite users_saveUsers, links_saveUsers;
    cbn [State.users State.set_users]; repeat split;
    unfold savePendingLinks, saveUsers;
    by destruct (Env.links_writable e), (Env.users_writable e).
Qed.

Lemma not_lapsed e link issued :
  Link.timestamp link = Fin issued →
  Env.now_ms e - issued ≤ expiry_ms →
  gtb (sub (Fin (Env.now_ms e)) (Link.timestamp link)) (Fin expiry_ms) = false.
Proof.
  intros -> Hle. rewrite sub_fin. apply not_true_is_false.
  intros H%gtb_fin. lia.
Qed.

(** X9.  link-account with a stored code presented within 24 hours of its
    issue gives the account of the given name, created if there is none,
    the Discord identity the code was issued to.  The account's balance
    stays as it was and any identity it held before is replaced; no other
    account is looked at or changed, so one that already holds the
    identity keeps it; the code is deleted. *)
Theorem link_account_links e rq s name link issued :
  LinkAccount.username rq = VStr name →
  name ≠ "" →
  truthy (LinkAccount.linkingCode rq) = true →
  State.pendingLinks s !! to_string (LinkAccount.linkingCode rq) = Some link →
  Link.timestamp link = Fin issued →
  Env.now_ms e - issued ≤ expiry_ms →
  let s' := snd (link_account e rq s) in
  Response.status (fst (link_account e rq s)) = 200
  ∧ (∃ user',
       State.users s' !! payer_index s name = Some user'
       ∧ User.discordId user' = Some (Link.discordId link)
       ∧ User.discordTag user' = Some (Link.discordTag link)
       ∧ User.balance user' = balance_of s name)
  ∧ (∀ j, j ≠ payer_index s name → State.users s' !! j = State.users s !! j)
  ∧ State.pendingLinks s'
    = delete (to_string (LinkAccount.linkingCode rq)) (State.pendingLinks s).
Proof.
  intros Hname Hne Hcode Hlink Hstamp Hfresh s'.
  destruct (link_account_stored e rq s name link Hname Hne Hcode Hlink
              (not_lapsed e link issued Hstamp Hfresh))
    as (H200 & Husers & Hlinks & _).
  fold s' in Husers, Hlinks. split; [done|]. split; [|split; [|done]].
  - unfold payer_index, balance_of. rewrite Husers.
    destruct (list_find (same_name name) (State.users s)) as [[i user]|] eqn:Hf.
    + apply list_find_Some in Hf as (Hi & _). eexists.
      rewrite list_lookup_insert_eq by (by eapply lookup_lt_Some).
      by repeat split.
    + eexists. rewrite lookup_app_r, Nat.sub_diag by lia. by repeat split.
  - intros j Hj. unfold payer_index in Hj. rewrite Husers.
    destruct (list_find (same_name name) (State.users s)) as [[i user]|] eqn:Hf.
    + by rewrite list_lookup_insert_ne.
    + destruct (decide (j < length (State.users s))%nat).
      * by rewrite lookup_app_l.
      * rewrite !lookup_ge_None_2; [done|lia|]. rewrite length_app. simpl. lia.
Qed.

(** Bob is linked to discord-1 already; the code 4FZYO8, issued to the
    same identity, is used for Carol: both accounts now hold discord-1. *)
Lemma link_account_links_witness :
  let s := Scene.bob_linked_code_issued in
  let rq := LinkAccount.Make (VStr "carol") (VStr "4FZYO8") in
  let s' := snd (link_account Sample.env_later rq s) in
  Response.status (fst (link_account Sample.env_later rq s)) = 200
  ∧ User.discordId <$> State.users s' !! 0%nat = Some (Some "discord-1")
  ∧ (∃ user',
       State.users s' !! 1%nat = Some user'
       ∧ User.discordId user' = Some "discord-1"
       ∧ User.discordTag user' = Some "bob#0001"
       ∧ User.balance user' = Fin 7).
Proof.
  intros s rq s'.
  assert ("carol" ≠ "") as Hne by done.
  assert (Env.now_ms Sample.env_later - 1704067200000 ≤ expiry_ms) as Hfresh
    by (by vm_compute).
  destruct (link_account_links Sample.env_later rq s "carol"
              (Link.Make "discord-1" "bob#0001" (Fin 1704067200000))
              1704067200000 eq_refl Hne eq_refl eq_refl eq_refl Hfresh)
    as (H200 & Huser & _).
  split; [exact H200|]. split; [reflexivity|exact Huser].
Defined.

(** X10.  unlink-discord clears the identity of the account it finds and
    nothing else; asked again for the same user it answers 400, "No
    Discord account linked", and changes nothing. *)
Theorem unlink_twice e e' username s i user :
  truthy username = true →
  find_user (State.users s) username = Some (Some (i, user)) →
  no_identity user = false →
  let s1 := snd (unlink_discord e username s) in
  fst (unlink_discord e username s)
  = answer 200 (Succeeded "Discord account unlinked")
  ∧ State.users s1 = <[i := User.set_discord None None user]> (State.users s)
  ∧ State.pendingLinks s1 = State.pendingLinks s
  ∧ unlink_discord e' username s1
    = (answer 400 (Refused "No Discord account linked"), s1).
Proof.
  intros Htruthy Hfind Hid s1.
  assert (State.users s1 = <[i := User.set_discord None None user]> (State.users s)
          ∧ State.pendingLinks s1 = State.pendingLinks s) as [Husers Hlinks].
  { subst s1. unfold unlink_discord. rewrite Htruthy, Hfind, Hid. cbn [negb snd].
    by rewrite users_saveUsers, links_saveUsers. }
  split; [|split; [done|split; [done|]]].
  - unfold unlink_discord. by rewrite Htruthy, Hfind, Hid.
  - unfold unlink_discord at 1. rewrite Htruthy, Husers. cbn [negb].
    by rewrite (find_user_insert _ _ _ user (User.set_discord None None user) Hfind).
Qed.

(** Bob is unlinked, twice. *)
Lemma unlink_twice_witness :
  let s1 := snd (unlink_discord Sample.env (VStr "BOB") Scene.bob_linked) in
  fst (unlink_discord Sample.env (VStr "BOB") Scene.bob_linked)
  = answer 200 (Succeeded "Discord account unlinked")
  ∧ User.discordId <$> State.users s1 !! 0%nat = Some None
  ∧ unlink_discord Sample.env_later (VStr "BOB") s1
    = (answer 400 (Refused "No Discord account linked"), s1).
Proof.
  intros s1.
  destruct (unlink_twice Sample.env Sample.env_later (VStr "BOB")
              Scene.bob_linked 0%nat
              (User.Make "u-1" "Bob" (Some "discord-1") (Some "bob#0001")
                 (Fin 50) (Fin 0) (Fin 0) (Fin 0) "2023-12-31T00:00:00.000Z" [])
              eq_refl eq_refl eq_refl) as (Hr & _ & _ & Hagain).
  split; [exact Hr|]. split; [reflexivity|exact Hagain].
Defined.

(** An account in the list holds the identity: both lookups by identity
    find one that does. *)
Lemma identity_found us k u d :
  us !! k = Some u → User.discordId u = Some d →
  (∃ j v, list_find (λ u, User.discordId u = Some d) us = Some (j, v))
  ∧ (∃ j v, list_find (holds_identity (VStr d)) us = Some (j, v)
            ∧ User.discordId v = Some d).
Proof.
  intros Hk Hd. apply list_elem_of_lookup_2 in Hk. split.
  - destruct (list_find_elem_of (λ u, User.discordId u = Some d) us u Hk Hd)
      as [[j v] Hf]. eauto.
  - assert (holds_identity (VStr d) u) as Hh by (unfold holds_identity; by rewrite Hd).
    destruct (list_find_elem_of (holds_identity (VStr d)) us u Hk Hh)
      as [[j v] Hf].
    exists j, v. split; [done|]. apply list_find_Some in Hf as (_ & Hv & _).
    unfold holds_identity in Hv. destruct (User.discordId v); by simplify_eq/=.
Qed.

(** X11.  The linking flow end to end.  A code the callback issues to an
    identity, presented to link-account within 24 hours with a user name,
    links that account; from then on the callback for the identity issues
    no further code and leaves the state alone, and discord-login with the
    identity answers with an account that holds it. *)
Theorem linking_flow e0 e1 e2 s discordId discordTag discordTag' code rq name :
  fst (discord_callback e0 discordId discordTag s) = Some code →
  code ≠ "" →
  discordId ≠ "" →
  LinkAccount.username rq = VStr name →
  name ≠ "" →
  LinkAccount.linkingCode rq = VStr code →
  Env.now_ms e1 - Env.now_ms e0 ≤ expiry_ms →
  let s1 := snd (discord_callback e0 discordId discordTag s) in
  let s2 := snd (link_account e1 rq s1) in
  Response.status (fst (link_account e1 rq s1)) = 200
  ∧ User.discordId <$> State.users s2 !! payer_index s name
    = Some (Some discordId)
  ∧ discord_callback e2 discordId discordTag' s2 = (None, s2)
  ∧ ∃ user,
      discord_login (VStr discordId) s2 = answer 200 (Found user)
      ∧ User.discordId user = Some discordId.
Proof.
  intros Hissue Hcode Hid Hname Hne Hrq Hfresh s1 s2.
  destruct (discord_callback_issues e0 discordId discordTag s code Hissue)
    as [_ Hstored]. fold s1 in Hstored.
  assert (State.users s1 = State.users s) as Husers1.
  { subst s1. unfold discord_callback. destruct (list_find _ _); [done|].
    cbn [snd]. by rewrite users_savePendingLinks. }
  assert (truthy (LinkAccount.linkingCode rq) = true) as Htruthy.
  { rewrite Hrq. simpl. by apply negb_true_iff, String.eqb_neq. }
  assert (State.pendingLinks s1 !! to_string (LinkAccount.linkingCode rq)
          = Some (Link.Make discordId discordTag (Fin (Env.now_ms e0))))
    as Hlink by (by rewrite Hrq).
  destruct (link_account_stored e1 rq s1 name _ Hname Hne Htruthy Hlink
              (not_lapsed e1 (Link.Make discordId discordTag (Fin (Env.now_ms e0)))
                 (Env.now_ms e0) eq_refl Hfresh))
    as (H200 & Husers2 & _). fold s2 in Husers2. cbn [Link.discordId Link.discordTag] in Husers2.
  assert (∃ user', State.users s2 !! payer_index s name = Some user'
                   ∧ User.discordId user' = Some discordId) as (user' & Hk & Hd).
  { unfold payer_index. rewrite Husers2, Husers1.
    destruct (list_find (same_name name) (State.users s)) as [[i user]|] eqn:Hf.
    - apply list_find_Some in Hf as (Hi & _). eexists.
      by rewrite list_lookup_insert_eq by (by eapply lookup_lt_Some).
    - eexists. by rewrite lookup_app_r, Nat.sub_diag by lia. }
  destruct (identity_found _ _ _ _ Hk Hd)
    as [(j & v & Hheld) (j' & v' & Hlogin & Hv')].
  split; [done|]. split; [by rewrite Hk; simpl; rewrite Hd|]. split.
  - unfold discord_callback. by rewrite Hheld.
  - exists v'. unfold discord_login.
    assert (truthy (VStr discordId) = true) as ->.
    { simpl. by apply negb_true_iff, String.eqb_neq. }
    cbn [negb]. by rewrite Hlogin.
Qed.

(** Bob logs in with Discord, gets the code 4FZYO8, sends it in the game
    a minute later; the next login needs no code. *)
Lemma linking_flow_witness :
  let rq := LinkAccount.Make (VStr "Bob") (VStr "4FZYO8") in
  let s1 := snd (discord_callback Sample.env "discord-1" "bob#0001" Sample.bob50) in
  let s2 := snd (link_account Sample.env_later rq s1) in
  fst (discord_callback Sample.env "discord-1" "bob#0001" Sample.bob50)
  = Some "4FZYO8"
  ∧ Response.status (fst (link_account Sample.env_later rq s1)) = 200
  ∧ User.discordId <$> State.users s2 !! 0%nat = Some (Some "discord-1")
  ∧ discord_callback Sample.env_last "discord-1" "bob#0002" s2 = (None, s2)
  ∧ ∃ user,
      discord_login (VStr "discord-1") s2 = answer 200 (Found user)
      ∧ User.discordId user = Some "discord-1".
Proof.
  intros rq s1 s2. split; [reflexivity|].
  assert ("4FZYO8" ≠ "") as H1 by done.
  assert ("discord-1" ≠ "") as H2 by done.
  assert ("Bob" ≠ "") as H3 by done.
  assert (Env.now_ms Sample.env_later - Env.now_ms Sample.env ≤ expiry_ms)
    as H4 by (by vm_compute).
  exact (linking_flow Sample.env Sample.env_later Sample.env_last Sample.bob50
           "discord-1" "bob#0001" "bob#0002" "4FZYO8" rq "Bob"
           eq_refl H1 H2 eq_refl H3 eq_refl H4).
Defined.

(** ** What a game call and a withdrawal write *)





(** ** The bot's drain of the command queue *)

Section Drain.
Context (b : Bot.t).

(** What the loop leaves at each position, and what it sends. *)
Lemma drain_entries i cmds :
  fst (fst (drain b i cmds))
  = imap (λ k c, if is_pending c && Bot.chat_ok b (i + k)
                 then mark_done b (i + k) c else c) cmds.
Proof.
  revert i. induction cmds as [|c cmds IH]; intros i; [done|].
  cbn [imap drain]. specialize (IH (S i)).
  destruct (drain b (S i) cmds) as [[rest' sent] ch]. cbn [fst] in IH.
  assert (rest'
          = imap ((λ k c0, if is_pending c0 && Bot.chat_ok b (i + k)
                           then mark_done b (i + k) c0 else c0) ∘ S) cmds)
    as <-.
  { rewrite IH. apply imap_ext. intros k x _. simpl. by rewrite Nat.add_succ_r. }
  rewrite Nat.add_0_r. unfold is_pending.
  destruct (Command.status (Entry.command c)); [|done].
  by destruct (Bot.chat_ok b i).
Qed.

Lemma drain_sent_all i cmds :
  (∀ k, Bot.chat_ok b k = true) →
  snd (fst (drain b i cmds)) = entry_text <$> filter (λ c, is_pending c) cmds.
Proof.
  intros Hok. revert i. induction cmds as [|c cmds IH]; intros i; [done|].
  simpl. specialize (IH (S i)). destruct (drain b (S i) cmds) as [[rest' sent] ch].
  simpl in IH. rewrite Hok, filter_cons.
  destruct (is_pending c) eqn:E; unfold is_pending in E.
  - rewrite decide_True by done.
    destruct (Command.status (Entry.command c)); [|done]. simpl. by rewrite IH.
  - rewrite decide_False by (by intros []).
    by destruct (Command.status (Entry.command c)).
Qed.

Lemma drain_nothing_pending i cmds :
  Forall (λ c, is_pending c = false) cmds →
  drain b i cmds = (cmds, [], false).
Proof.
  intros Hall. revert i. induction Hall as [|c cmds Hc _ IH]; intros i; [done|].
  simpl. rewrite IH. unfold is_pending in Hc.
  by destruct (Command.status (Entry.command c)).
Qed.

(** [changed] says whether anything was sent. *)
Lemma drain_changed i cmds :
  snd (drain b i cmds) = false → snd (fst (drain b i cmds)) = [].
Proof.
  revert i. induction cmds as [|c cmds IH]; intros i; [done|].
  simpl. specialize (IH (S i)). destruct (drain b (S i) cmds) as [[rest' sent] ch].
  simpl in IH. destruct (Command.status (Entry.command c)); [|done].
  by destruct (Bot.chat_ok b i).
Qed.

End Drain.

(** The sends of a pass depend on the file and on which chats go through. *)
Lemma drain_sent_ext b b' i cmds :
  (∀ k, Bot.chat_ok b' k = Bot.chat_ok b k) →
  snd (fst (drain b' i cmds)) = snd (fst (drain b i cmds)).
Proof.
  intros Hsame. revert i. induction cmds as [|c cmds IH]; intros i; [done|].
  simpl. specialize (IH (S i)).
  destruct (drain b (S i) cmds) as [[rest sent] ch],
           (drain b' (S i) cmds) as [[rest' sent'] ch'].
  simpl in IH. subst sent'. rewrite Hsame.
  destruct (Command.status (Entry.command c)); [|done].
  by destruct (Bot.chat_ok b i).
Qed.

(** X14.  A pass of the bot never reopens a command.  The file keeps its
    entries in place, each with its identifier, text and creation time; an
    entry that was done is left exactly as it was, and an entry that was
    pending is either left as it was or marked done with the time and the
    bot's name. *)
Theorem poll_never_reopens b f cmds :
  bot_loadCommands f = Some cmds →
  ∃ cmds',
    bot_loadCommands (fst (poll b f)) = Some cmds'
    ∧ length cmds' = length cmds
    ∧ ∀ k c, cmds !! k = Some c →
        ∃ c', cmds' !! k = Some c'
              ∧ (is_pending c = false → c' = c)
              ∧ (c' = c ∨ c' = mark_done b k c)
              ∧ Command.id (Entry.command c') = Command.id (Entry.command c)
              ∧ entry_text c' = entry_text c
              ∧ Command.createdAt (Entry.command c')
                = Command.createdAt (Entry.command c).
Proof.
  intros Hload. unfold poll. rewrite Hload.
  pose proof (drain_entries b 0 cmds) as Hentries.
  destruct (drain b 0 cmds) as [[cmds1 sent] changed]. simpl in Hentries.
  assert (∃ cmds', bot_loadCommands
                     (if changed then bot_saveCommands b cmds1 f else f)
                   = Some cmds' ∧ (cmds' = cmds ∨ cmds' = cmds1))
    as (cmds' & Hload' & Hcase).
  { destruct changed; [|eauto]. unfold bot_saveCommands.
    destruct (Bot.commands_writable b); simpl; eauto. }
  exists cmds'. cbn [fst]. split; [done|].
  destruct Hcase as [-> | ->].
  - split; [done|]. intros k c Hk. exists c. by repeat split; auto.
  - subst cmds1. split; [apply length_imap|]. intros k c Hk.
    rewrite list_lookup_imap, Hk. simpl.
    destruct (is_pending c && Bot.chat_ok b k) eqn:E.
    + exists (mark_done b k c). split; [done|].
      apply andb_true_iff in E as [E _].
      split; [by rewrite E|]. by repeat split; auto.
    + exists c. by repeat split; auto.
Qed.

(** The queue of [Scene.queue_file] after a pass: the executed entry is
    as before, the two waiting ones are marked. *)
Lemma poll_never_reopens_witness :
  ∃ cmds',
    bot_loadCommands (fst (poll Scene.bot Scene.queue_file)) = Some cmds'
    ∧ length cmds' = 3%nat
    ∧ cmds' !! 0%nat
      = Some (Entry.Make
                (Command.Make "c-1" "/pay Alice 200" Command.done
                   "2024-01-01T00:01:00.001Z")
                (Some "2024-01-01T00:01:02.000Z") (Some "PayBot"))
    ∧ is_pending <$> cmds' = [false; false; false].
Proof.
  destruct (poll_never_reopens Scene.bot Scene.queue_file _ eq_refl)
    as (cmds' & Hload & Hlen & _).
  exists cmds'. split; [exact Hload|]. split; [exact Hlen|].
  vm_compute in Hload. injection Hload as <-. split; reflexivity.
Defined.

Lemma imap_marked b cmds :
  (∀ k, Bot.chat_ok b k = true) →
  Forall (λ c, is_pending c = false)
    (imap (λ k c, if is_pending c && Bot.chat_ok b (0 + k)
                  then mark_done b (0 + k) c else c) cmds).
Proof.
  intros Hok. apply Forall_lookup. intros k c.
  rewrite list_lookup_imap. intros (c0 & _ & ->)%fmap_Some.
  rewrite Hok, andb_true_r. by destruct (is_pending c0) eqn:E.
Qed.

Lemma nothing_sent_nothing_pending (cmds : list Entry.t) :
  entry_text <$> filter (λ c, is_pending c) cmds = [] →
  Forall (λ c, is_pending c = false) cmds.
Proof.
  intros H%fmap_nil_inv. apply Forall_forall. intros c Hc.
  destruct (is_pending c) eqn:E; [|done].
  assert (c ∈ filter (λ c, is_pending c) cmds) as Hin
    by (apply list_elem_of_filter; by rewrite E).
  rewrite H in Hin. by apply elem_of_nil in Hin.
Qed.

(** X15.  When every chat goes through and commands.json can be written,
    a pass hands the game exactly the pending commands, in file order, and
    none that is done; the file it leaves has no pending entry, so the
    next pass sends nothing and leaves the file alone. *)
Theorem poll_drains_once b f cmds :
  bot_loadCommands f = Some cmds →
  (∀ k, Bot.chat_ok b k = true) →
  Bot.commands_writable b = true →
  snd (poll b f) = entry_text <$> filter (λ c, is_pending c) cmds
  ∧ (∃ cmds', bot_loadCommands (fst (poll b f)) = Some cmds'
              ∧ Forall (λ c, is_pending c = false) cmds')
  ∧ ∀ b', poll b' (fst (poll b f)) = (fst (poll b f), []).
Proof.
  intros Hload Hok Hw.
  assert (snd (poll b f) = entry_text <$> filter (λ c, is_pending c) cmds
          ∧ ∃ cmds', bot_loadCommands (fst (poll b f)) = Some cmds'
                     ∧ Forall (λ c, is_pending c = false) cmds')
    as [Hsent (cmds' & Hload' & Hdone)].
  { unfold poll. rewrite Hload.
    pose proof (drain_entries b 0 cmds) as Hentries.
    pose proof (drain_sent_all b 0 cmds Hok) as Hsent.
    pose proof (drain_changed b 0 cmds) as Hchanged.
    destruct (drain b 0 cmds) as [[cmds1 sent] changed]. simpl in *.
    split; [done|]. destruct changed.
    - exists cmds1. unfold bot_saveCommands. rewrite Hw. split; [done|].
      subst cmds1. by apply imap_marked.
    - exists cmds. split; [done|]. apply nothing_sent_nothing_pending.
      rewrite <- Hsent. by apply Hchanged. }
  split; [done|]. split; [eauto|]. intros b'.
  unfold poll at 1. rewrite Hload'.
  by rewrite (drain_nothing_pending b' 0 cmds' Hdone).
Qed.

(** [Scene.queue_file]: the pass sends the two waiting commands, and the
    pass after it sends nothing. *)
Lemma poll_drains_once_witness :
  snd (poll Scene.bot Scene.queue_file) = ["/pay Bob 40"; "/pay Carol 7"]
  ∧ poll Scene.bot (fst (poll Scene.bot Scene.queue_file))
    = (fst (poll Scene.bot Scene.queue_file), []).
Proof.
  destruct (poll_drains_once Scene.bot Scene.queue_file _ eq_refl
              (λ _, eq_refl) eq_refl) as (Hsent & _ & Hagain).
  split; [exact Hsent|exact (Hagain Scene.bot)].
Defined.

(** X16.  When commands.json cannot be written, a pass still sends the
    pending commands but the file stays as it was, so the next pass, the
    chat going through as before, sends every one of them again. *)
Theorem poll_resends_after_failed_write b b' f :
  Bot.commands_writable b = false →
  (∀ k, Bot.chat_ok b' k = Bot.chat_ok b k) →
  fst (poll b f) = f
  ∧ snd (poll b' (fst (poll b f))) = snd (poll b f).
Proof.
  intros Hw Hsame.
  assert (fst (poll b f) = f) as Hf.
  { unfold poll. destruct (bot_loadCommands f); [|done].
    destruct (drain b 0 l) as [[cmds1 sent] changed]. simpl.
    unfold bot_saveCommands. rewrite Hw. by destruct changed. }
  split; [done|]. rewrite Hf. unfold poll.
  destruct (bot_loadCommands f) as [cmds|]; [|done].
  pose proof (drain_sent_ext b b' 0 cmds Hsame) as Hsent.
  destruct (drain b 0 cmds) as [[cmds1 sent] changed],
           (drain b' 0 cmds) as [[cmds1' sent'] changed']. done.
Qed.

(** [Scene.queue_file] on a read-only disk: both pending commands are
    sent in the first pass and again in the second. *)
Lemma poll_resends_after_failed_write_witness :
  snd (poll Scene.bot_readonly Scene.queue_file)
  = ["/pay Bob 40"; "/pay Carol 7"]
  ∧ snd (poll Scene.bot_readonly
           (fst (poll Scene.bot_readonly Scene.queue_file)))
    = snd (poll Scene.bot_readonly Scene.queue_file).
Proof.
  split; [reflexivity|].
  exact (proj2 (poll_resends_after_failed_write Scene.bot_readonly
                  Scene.bot_readonly Scene.queue_file eq_refl (λ _, eq_refl))).
Defined.



(** ** The backup timer *)

Lemma name_le_lt a b : name_le a b ↔ a = b ∨ String_as_OT.lt a b.
Proof.
  unfold name_le, String.leb.
  rewrite <- String_as_OT.cmp_lt, <- String_as_OT.cmp_eq.
  unfold String_as_OT.cmp. destruct (String.compare a b); intuition congruence.
Qed.

Lemma name_le_trans : Transitive name_le.
Proof.
  intros a b c [->|H1]%name_le_lt [->|H2]%name_le_lt; apply name_le_lt; eauto.
  right. eapply String_as_OT.lt_trans; eauto.
Qed.

Lemma name_le_total : Total name_le.
Proof. intros a b. apply String.leb_total. Qed.

Lemma prefix_append p t : String.prefix p (p ++ t)%string = true.
Proof.
  induction p as [|a p IH].
  - change ("" ++ t)%string with t. by destruct t.
  - change (String a p ++ t)%string with (String a (p ++ t)%string).
    cbn [String.prefix]. by destruct (ascii_dec a a).
Qed.

Lemma backup_name_is_backup iso : is_backup (backup_name iso) = true.
Proof. apply prefix_append. Qed.

Lemma elem_of_backup_files dir f :
  f ∈ backup_files dir ↔ is_backup f = true ∧ is_Some (dir !! f).
Proof.
  unfold backup_files. rewrite merge_sort_Permutation.
  by rewrite list_elem_of_filter, elem_of_elements, elem_of_dom.
Qed.

Lemma NoDup_backup_files dir : NoDup (backup_files dir).
Proof.
  unfold backup_files. rewrite merge_sort_Permutation.
  apply NoDup_filter, NoDup_elements.
Qed.

Lemma Sorted_backup_files dir : StronglySorted name_le (backup_files dir).
Proof.
  apply StronglySorted_merge_sort; [apply name_le_trans|apply name_le_total].
Qed.

(** With every unlink going through, [prune] removes the names in front
    of the last twenty and nothing else. *)
Lemma lookup_prune b files dir f :
  (∀ g, BackupEnv.unlink_ok b g = true) →
  prune b files dir !! f
  = if decide (f ∈ take (length files - 20) files) then None else dir !! f.
Proof.
  intros Hok. revert dir. induction files as [|rm rest IH]; intros dir.
  - cbn. by rewrite decide_False by apply not_elem_of_nil.
  - cbn [prune]. destruct (Nat.ltb_spec 20 (length (rm :: rest))) as [Hlt|Hle].
    + rewrite Hok, IH. cbn [length] in *.
      replace (S (length rest) - 20)%nat with (S (length rest - 20)) by lia.
      cbn [take]. destruct (decide (f = rm)) as [->|Hne].
      * rewrite lookup_delete_eq.
        destruct (decide (rm ∈ rm :: _)) as [_|[]]; [|left].
        by destruct (decide _).
      * rewrite lookup_delete_ne by done.
        destruct (decide (f ∈ take _ rest)) as [Hin|Hout],
                 (decide (f ∈ rm :: _)) as [Hin'|Hout']; try done.
        -- destruct Hout'. by right.
        -- by apply elem_of_cons in Hin' as [?|?].
    + replace (length (rm :: rest) - 20)%nat with 0%nat by lia.
      cbn. by rewrite decide_False by apply not_elem_of_nil.
Qed.

Lemma pruned_backup_files b dir :
  (∀ g, BackupEnv.unlink_ok b g = true) →
  backup_files (prune b (backup_files dir) dir)
  ≡ₚ drop (length (backup_files dir) - 20) (backup_files dir).
Proof.
  intros Hok.
  pose proof (NoDup_backup_files dir) as Hnd.
  rewrite <- (take_drop (length (backup_files dir) - 20) (backup_files dir))
    in Hnd at 1.
  apply NoDup_app in Hnd as (_ & Hdisj & Hnd).
  apply NoDup_Permutation; [apply NoDup_backup_files|done|].
  intros f. rewrite elem_of_backup_files, lookup_prune by done.
  destruct (decide (f ∈ take _ _)) as [Hin|Hout].
  - split; [intros [_ []%is_Some_None]|]. intros ?. by destruct (Hdisj f).
  - rewrite <- elem_of_backup_files.
    rewrite <- (take_drop (length (backup_files dir) - 20) (backup_files dir))
      at 1.
    rewrite elem_of_app. tauto.
Qed.

(** Whatever the unlinks do, [prune] only removes, and only listed names. *)
Lemma lookup_prune_Some b files dir f x :
  prune b files dir !! f = Some x → dir !! f = Some x.
Proof.
  revert dir. induction files as [|rm rest IH]; intros dir; [done|].
  cbn [prune]. destruct (_ <? _)%nat; [|done].
  intros H%IH. destruct (BackupEnv.unlink_ok b rm); [|done].
  by apply lookup_delete_Some in H as [_ ?].
Qed.

Lemma lookup_prune_other b files dir f :
  f ∉ files → prune b files dir !! f = dir !! f.
Proof.
  revert dir. induction files as [|rm rest IH]; intros dir Hf; [done|].
  apply not_elem_of_cons in Hf as [Hne Hf].
  cbn [prune]. destruct (_ <? _)%nat; [|done].
  rewrite IH by done. destruct (BackupEnv.unlink_ok b rm); [|done].
  by rewrite lookup_delete_ne.
Qed.

(** X18.  Retention.  A tick of the backup timer in which the copy, the
    listing and every unlink go through leaves at most twenty backups:
    twenty if the directory, the new backup included, held more, all of
    them otherwise.  The ones it removes are the first in name order:
    each sorts at or below every backup that is kept. *)
Theorem backup_tick_retention b s dir users :
  Disk.users_json (State.disk s) = Some users →
  BackupEnv.copy_ok b = true →
  BackupEnv.readdir_ok b = true →
  (∀ f, BackupEnv.unlink_ok b f = true) →
  let dir1 := <[backup_name (BackupEnv.iso_now b) := users]> dir in
  let dir' := backup_tick b s dir in
  length (backup_files dir') = (length (backup_files dir1) `min` 20)%nat
  ∧ (∀ f g, f ∈ backup_files dir1 → f ∉ backup_files dir' →
            g ∈ backup_files dir' → name_le f g).
Proof.
  intros Hu Hc Hr Hok dir1 dir'.
  assert (dir' = prune b (backup_files dir1) dir1) as ->.
  { subst dir'. unfold backup_tick. by rewrite Hu, Hc, Hr. }
  pose proof (pruned_backup_files b dir1 Hok) as Hperm.
  split.
  - rewrite Hperm, length_drop. lia.
  - intros f g Hf Hf' Hg. rewrite Hperm in Hf', Hg.
    apply (StronglySorted_app_1_elem_of name_le
             (take (length (backup_files dir1) - 20) (backup_files dir1))
             (drop (length (backup_files dir1) - 20) (backup_files dir1)));
      [rewrite take_drop; apply Sorted_backup_files| |done].
    rewrite <- (take_drop (length (backup_files dir1) - 20) (backup_files dir1))
      in Hf.
    by apply elem_of_app in Hf as [?|?].
Qed.

(** The twenty-first tick: twenty backups are left. *)
Lemma backup_tick_retention_witness :
  let dir1 := <[backup_name "2024-01-01T01:40:00.000Z"
                := State.users Scene.bob_linked]> Scene.backups in
  let dir' := backup_tick Scene.timer Scene.bob_saved Scene.backups in
  length (backup_files dir') = 20%nat
  ∧ (∀ f g, f ∈ backup_files dir1 → f ∉ backup_files dir' →
            g ∈ backup_files dir' → name_le f g).
Proof.
  intros dir1 dir'.
  pose proof (backup_tick_retention Scene.timer Scene.bob_saved Scene.backups
                (State.users Scene.bob_linked) eq_refl eq_refl eq_refl
                (λ _, eq_refl)) as [Hlen Hold].
  split; [|exact Hold].
  etransitivity; [exact Hlen|]. vm_compute. reflexivity.
Defined.

(** X19.  What a tick never does, whatever fails in it: a file of the
    directory that is not a backup is left as it was, and every file found
    afterwards holds what it held before, the new backup apart, which
    holds the users of users.json. *)
Theorem backup_tick_preserves b s dir f :
  let dir' := backup_tick b s dir in
  (is_backup f = false → dir' !! f = dir !! f)
  ∧ (∀ x, dir' !! f = Some x →
          f = backup_name (BackupEnv.iso_now b)
          ∧ Disk.users_json (State.disk s) = Some x
          ∨ dir !! f = Some x).
Proof.
  intros dir'. subst dir'. unfold backup_tick.
  destruct (Disk.users_json (State.disk s)) as [users|]; [|by eauto].
  destruct (BackupEnv.copy_ok b); [|by eauto].
  assert (is_backup f = false → f ≠ backup_name (BackupEnv.iso_now b)) as Hne.
  { intros Hf ->. by rewrite backup_name_is_backup in Hf. }
  assert (∀ x, <[backup_name (BackupEnv.iso_now b) := users]> dir !! f = Some x →
               f = backup_name (BackupEnv.iso_now b) ∧ Some users = Some x
               ∨ dir !! f = Some x) as Hins.
  { intros x [[<- <-]|[_ ?]]%lookup_insert_Some; eauto. }
  destruct (BackupEnv.readdir_ok b).
  - split.
    + intros Hf. rewrite lookup_prune_other.
      * by rewrite lookup_insert_ne by (symmetry; auto).
      * rewrite elem_of_backup_files, Hf. by intros [? _].
    + intros x Hx%lookup_prune_Some. auto.
  - split; [|done].
    intros Hf. by rewrite lookup_insert_ne by (symmetry; auto).
Qed.

(** The notes survive the twenty-first tick. *)
Lemma backup_tick_preserves_witness :
  backup_tick Scene.timer Scene.bob_saved Scene.backups !! "notes.txt"
  = Some [].
Proof.
  exact (proj1 (backup_tick_preserves Scene.timer Scene.bob_saved Scene.backups
                  "notes.txt") eq_refl).
Defined.
